(** * logFUSE: a logging pass-through filesystem for FUSE

    A shallow embedding of [logfuse.cpp].  The program forwards each
    filesystem request to the C library and hands the outcome back to
    the FUSE framework.  The C library and the kernel are the
    environment: the model keeps them in a [World] that answers each
    call and remembers which calls were made. *)

From Stdlib Require Import ZArith String List Bool Lia.
From stdpp Require Import gmap.
Import ListNotations.

Local Open Scope Z_scope.

(** ** Machine integers *)

(** [int] is 32 bits wide, [mode_t] 16 bits and [fuse_file_info::fh]
    an unsigned 64 bit word on the target the program is built for. *)
Definition to_int (x : Z) : Z := (x + 2 ^ 31) mod 2 ^ 32 - 2 ^ 31.
Definition to_uint64 (x : Z) : Z := x mod 2 ^ 64.
Definition to_mode_t (x : Z) : Z := x mod 2 ^ 16.

(** [(uid_t) -1] and [(gid_t) -1]: the value [lchown] reads as
    "leave unchanged". *)
Definition id_unchanged : Z := 2 ^ 32 - 1.

(** ** Data of the program and of the C library *)

Record timespec := { tv_sec : Z; tv_nsec : Z }.

Record dirent := { d_ino : Z; d_type : Z; d_name : string }.

(** The fields of [struct stat] that [logfuse_readdir] fills in; the
    others are cleared by [memset]. *)
Record stat := { st_ino : Z; st_mode : Z }.

(** The attribute groups the program names when it sets one time. *)
Inductive attrgroup_t :=
| ATTR_CMN_ACCTIME
| ATTR_CMN_MODTIME
| ATTR_CMN_CRTIME
| ATTR_CMN_CHGTIME
| ATTR_CMN_BKUPTIME.

(** A directory stream of the C library ([DIR]).  It holds the entries
    of the directory, what a read past the last entry gives (the end
    of the directory when [None], a read error with that error number
    otherwise), the position of the next read, and the encoding of
    positions as the tokens [telldir] hands out and [seekdir] takes
    back.  Nothing is assumed about the encoding. *)
Record DIR := {
  d_entries : list dirent;
  d_tail : option positive;
  d_pos : nat;
  d_tell : nat -> Z;
  d_seek : Z -> nat
}.

(** [struct logfuse_dir_info]: both pointers may be null. *)
Record logfuse_dir_info := {
  dir : option DIR;
  entry : option dirent;
  offset : Z
}.

Record fuse_file_info := { flags : Z; fh : Z }.

Record setattr_x := {
  valid : Z;
  mode : Z;
  uid : Z;
  gid : Z;
  size : Z;
  acctime : timespec;
  modtime : timespec;
  crtime : timespec;
  chgtime : timespec;
  bkuptime : timespec;
  xflags : Z
}.

(** ** The environment *)

(** The calls the program makes into the C library and the kernel. *)
Inductive call :=
| sys_unlink (path : string)
| sys_truncate (path : string) (length : Z)
| sys_listxattr (path : string) (size : Z)
| sys_open (path : string) (oflags : Z) (omode : option Z)
| sys_lchmod (path : string) (m : Z)
| sys_lchown (path : string) (owner group : Z)
| sys_setattrlist (path : string) (attr : attrgroup_t) (t : timespec)
| sys_lchflags (path : string) (f : Z)
| sys_fchmod (fd : Z) (m : Z)
| sys_fchown (fd : Z) (owner group : Z)
| sys_ftruncate (fd : Z) (length : Z)
| sys_fsetattrlist (fd : Z) (attr : attrgroup_t) (t : timespec)
| sys_fchflags (fd : Z) (f : Z)
| lib_opendir (path : string)
| lib_closedir (d : option DIR)
| lib_seekdir (loc : Z)
| lib_readdir
| lib_telldir
| lib_malloc.

(** The outcome of a call that reports through its result and
    [errno]: [Ok r] is the result [r] with [errno] left alone,
    [Fail e] is the result [-1] with [errno] set to [e].  Error numbers
    are positive, as POSIX has them. *)
Inductive sysret :=
| Ok (r : Z)
| Fail (e : positive).

Inductive logarg :=
| LStr (s : string)
| LInt (n : Z).

(** The world: how the system answers a call (given the calls made so
    far), the stream or the error number it answers [opendir] with,
    [errno], the calls made so far (oldest first), the log sink, and
    the heap of directory cursors the program has allocated. *)
Record World := {
  w_sys : list call -> call -> sysret;
  w_opendir : list call -> string -> DIR + positive;
  w_errno : Z;
  w_trace : list call;
  w_log : list (string * list logarg);
  w_heap : gmap positive logfuse_dir_info
}.

Definition set_errno (e : Z) (w : World) : World :=
  {| w_sys := w_sys w; w_opendir := w_opendir w; w_errno := e;
     w_trace := w_trace w; w_log := w_log w; w_heap := w_heap w |}.

Definition add_call (c : call) (w : World) : World :=
  {| w_sys := w_sys w; w_opendir := w_opendir w; w_errno := w_errno w;
     w_trace := w_trace w ++ [c]; w_log := w_log w; w_heap := w_heap w |}.

Definition set_heap (h : gmap positive logfuse_dir_info) (w : World) : World :=
  {| w_sys := w_sys w; w_opendir := w_opendir w; w_errno := w_errno w;
     w_trace := w_trace w; w_log := w_log w; w_heap := h |}.

(** A call that reports through its result and [errno]. *)
Definition native (c : call) (w : World) : Z * World :=
  match w_sys w (w_trace w) c with
  | Ok r => (r, add_call c w)
  | Fail e => (-1, set_errno (Zpos e) (add_call c w))
  end.

(** [logfuse_log]: format the message and hand it to the log sink.
    The sink keeps the format and its arguments; logging leaves
    [errno] and the rest of the world as they are. *)
Definition logfuse_log (fmt : string) (args : list logarg) (w : World) : World :=
  {| w_sys := w_sys w; w_opendir := w_opendir w; w_errno := w_errno w;
     w_trace := w_trace w; w_log := w_log w ++ [(fmt, args)]; w_heap := w_heap w |}.

(** What a run of the program can come to: a result, behaviour the C
    language leaves undefined (a null or dangling pointer is used), or
    a loop that was cut short. *)
Inductive exec (A : Type) :=
| Returns (a : A)
| Undefined
| OutOfFuel.
Arguments Returns {A} a.
Arguments Undefined {A}.
Arguments OutOfFuel {A}.

(** ** Error translation *)

(** The macro [RETURN_FUSE_ERRNO], with the [sysErr] and the [errno] it
    reads. *)
Definition RETURN_FUSE_ERRNO (sysErr errno : Z) : Z :=
  if sysErr =? -1 then - errno else sysErr.

(** Modelled from the spec: [ENOMEM] comes from [errno.h], which is not
    part of the source; the spec calls it the out-of-memory error. *)
Definition ENOMEM : Z := 12.



(** [logfuse_listxattr] keeps the outcome in an [ssize_t] and returns
    an [int]. *)
Definition logfuse_listxattr (path : string) (list : string) (size : Z) (w : World)
  : Z * World :=
  let '(sysErr, w) := native (sys_listxattr path size) w in
  let w := logfuse_log "logfuse_listxattr(%s, %s) err=%ld"
             [LStr path; LStr list; LInt sysErr] w in
  (to_int (RETURN_FUSE_ERRNO sysErr (w_errno w)), w).

(** ** Setting several attributes at once *)

(** The fields a request can carry. *)
Inductive setattr_field :=
| F_MODE | F_UID | F_GID | F_SIZE | F_ACCTIME | F_MODTIME
| F_CRTIME | F_CHGTIME | F_BKUPTIME | F_FLAGS.

(** Modelled from the spec: the [SETATTR_WANTS_*] macros come from the
    FUSE header, which is not part of the source.  The spec says that
    the request carries a bitmask of which fields are present; each
    macro tests one bit of [valid].  The positions are those of the
    macOS FUSE header. *)
Definition SETATTR_WANTS (f : setattr_field) (a : setattr_x) : bool :=
  Z.testbit (valid a)
    match f with
    | F_MODE => 0 | F_UID => 1 | F_GID => 2 | F_SIZE => 3
    | F_ACCTIME => 4 | F_MODTIME => 5
    | F_CRTIME => 28 | F_CHGTIME => 29 | F_BKUPTIME => 30 | F_FLAGS => 31
    end.

Definition SETATTR_WANTS_MODE : setattr_x -> bool := SETATTR_WANTS F_MODE.
Definition SETATTR_WANTS_UID : setattr_x -> bool := SETATTR_WANTS F_UID.
Definition SETATTR_WANTS_GID : setattr_x -> bool := SETATTR_WANTS F_GID.
Definition SETATTR_WANTS_SIZE : setattr_x -> bool := SETATTR_WANTS F_SIZE.
Definition SETATTR_WANTS_ACCTIME : setattr_x -> bool := SETATTR_WANTS F_ACCTIME.
Definition SETATTR_WANTS_MODTIME : setattr_x -> bool := SETATTR_WANTS F_MODTIME.
Definition SETATTR_WANTS_CRTIME : setattr_x -> bool := SETATTR_WANTS F_CRTIME.
Definition SETATTR_WANTS_CHGTIME : setattr_x -> bool := SETATTR_WANTS F_CHGTIME.
Definition SETATTR_WANTS_BKUPTIME : setattr_x -> bool := SETATTR_WANTS F_BKUPTIME.
Definition SETATTR_WANTS_FLAGS : setattr_x -> bool := SETATTR_WANTS F_FLAGS.

(** [logfuse_set_timespec] and [logfuse_fset_timespec]: one time
    attribute through [setattrlist] or [fsetattrlist]; the outcome is
    handed back as it is. *)
Definition logfuse_set_timespec (path : string) (theAttribute : attrgroup_t)
    (theTime : timespec) (w : World) : Z * World :=
  native (sys_setattrlist path theAttribute theTime) w.

Definition logfuse_fset_timespec (fd : Z) (theAttribute : attrgroup_t)
    (theTime : timespec) (w : World) : Z * World :=
  native (sys_fsetattrlist fd theAttribute theTime) w.

(** One block of the form
    [if (wanted) { sysErr = call; if (test) goto done; }]
    followed by the rest of the function. *)
Definition attr_step (done : Z -> World -> Z * World) (wanted : bool)
    (apply : World -> Z * World) (leave : Z -> bool)
    (rest : Z -> World -> Z * World) (sysErr : Z) (w : World) : Z * World :=
  if wanted then
    let '(r, w1) := apply w in
    if leave r then done r w1 else rest r w1
  else rest sysErr w.

(** The two tests the source uses before [goto done]. *)
Definition is_minus_one (r : Z) : bool := r =? -1.
Definition not_minus_one (r : Z) : bool := negb (r =? -1).

(** The label [done] of both functions: log, then [RETURN_FUSE_ERRNO]. *)
Definition setattr_done (path : string) (sysErr : Z) (w : World) : Z * World :=
  let w := logfuse_log "logfuse_setattr_x(%s) err=%d" [LStr path; LInt sysErr] w in
  (RETURN_FUSE_ERRNO sysErr (w_errno w), w).

(** [logfuse_setattr_x].  [sysErr] is declared without a value; the
    argument [sysErr0] is whatever the variable holds at entry. *)
Definition logfuse_setattr_x (path : string) (theAttributes : setattr_x)
    (sysErr0 : Z) (w : World) : Z * World :=
  let a := theAttributes in
  let done := setattr_done path in
  attr_step done (SETATTR_WANTS_MODE a)
    (native (sys_lchmod path (mode a))) is_minus_one (
  attr_step done (SETATTR_WANTS_UID a || SETATTR_WANTS_GID a)
    (native (sys_lchown path
       (if SETATTR_WANTS_UID a then uid a else id_unchanged)
       (if SETATTR_WANTS_GID a then gid a else id_unchanged))) is_minus_one (
  attr_step done (SETATTR_WANTS_SIZE a)
    (native (sys_truncate path (size a))) not_minus_one (
  attr_step done (SETATTR_WANTS_ACCTIME a)
    (logfuse_set_timespec path ATTR_CMN_ACCTIME (acctime a)) not_minus_one (
  attr_step done (SETATTR_WANTS_MODTIME a)
    (logfuse_set_timespec path ATTR_CMN_MODTIME (modtime a)) not_minus_one (
  attr_step done (SETATTR_WANTS_CRTIME a)
    (logfuse_set_timespec path ATTR_CMN_CRTIME (crtime a)) not_minus_one (
  attr_step done (SETATTR_WANTS_CHGTIME a)
    (logfuse_set_timespec path ATTR_CMN_CHGTIME (chgtime a)) not_minus_one (
  attr_step done (SETATTR_WANTS_BKUPTIME a)
    (logfuse_set_timespec path ATTR_CMN_BKUPTIME (bkuptime a)) not_minus_one (
  attr_step done (SETATTR_WANTS_FLAGS a)
    (native (sys_lchflags path (xflags a))) not_minus_one
  done)))))))) sysErr0 w.

(** [logfuse_fsetattr_x]: the same on the descriptor held in
    [fileInfo->fh], which each call receives as an [int]. *)
Definition logfuse_fsetattr_x (path : string) (theAttributes : setattr_x)
    (fileInfo : fuse_file_info) (sysErr0 : Z) (w : World) : Z * World :=
  let a := theAttributes in
  let fd := to_int (fh fileInfo) in
  let done := setattr_done path in
  attr_step done (SETATTR_WANTS_MODE a)
    (native (sys_fchmod fd (mode a))) is_minus_one (
  attr_step done (SETATTR_WANTS_UID a || SETATTR_WANTS_GID a)
    (native (sys_fchown fd
       (if SETATTR_WANTS_UID a then uid a else id_unchanged)
       (if SETATTR_WANTS_GID a then gid a else id_unchanged))) is_minus_one (
  attr_step done (SETATTR_WANTS_SIZE a)
    (native (sys_ftruncate fd (size a))) not_minus_one (
  attr_step done (SETATTR_WANTS_ACCTIME a)
    (logfuse_fset_timespec fd ATTR_CMN_ACCTIME (acctime a)) not_minus_one (
  attr_step done (SETATTR_WANTS_MODTIME a)
    (logfuse_fset_timespec fd ATTR_CMN_MODTIME (modtime a)) not_minus_one (
  attr_step done (SETATTR_WANTS_CRTIME a)
    (logfuse_fset_timespec fd ATTR_CMN_CRTIME (crtime a)) not_minus_one (
  attr_step done (SETATTR_WANTS_CHGTIME a)
    (logfuse_fset_timespec fd ATTR_CMN_CHGTIME (chgtime a)) not_minus_one (
  attr_step done (SETATTR_WANTS_BKUPTIME a)
    (logfuse_fset_timespec fd ATTR_CMN_BKUPTIME (bkuptime a)) not_minus_one (
  attr_step done (SETATTR_WANTS_FLAGS a)
    (native (sys_fchflags fd (xflags a))) not_minus_one
  done)))))))) sysErr0 w.

(** ** Files: open and create *)

(** [logfuse_open].  The log line shows the flags as text; the sink
    here keeps the number. *)
Definition logfuse_open (path : string) (fileInfo : fuse_file_info) (w : World)
  : Z * fuse_file_info * World :=
  let '(fd, w) := native (sys_open path (flags fileInfo) None) w in
  let w := logfuse_log "logfuse_open(%s, %s) fd=%d"
             [LStr path; LInt (flags fileInfo); LInt fd] w in
  if fd =? -1 then (- w_errno w, fileInfo, w)
  else (0, {| flags := flags fileInfo; fh := to_uint64 fd |}, w).

(** [logfuse_create]. *)
Definition logfuse_create (path : string) (mode : Z) (fileInfo : fuse_file_info)
    (w : World) : Z * fuse_file_info * World :=
  let '(fd, w) := native (sys_open path (flags fileInfo) (Some mode)) w in
  let w := logfuse_log "logfuse_create(%s, 0x%0X, %d) fd=%d"
             [LStr path; LInt mode; LInt (flags fileInfo); LInt fd] w in
  if fd =? -1 then (- w_errno w, fileInfo, w)
  else (0, {| flags := flags fileInfo; fh := to_uint64 fd |}, w).

(** ** Stubs *)

(** [logfuse_ioctl] and [logfuse_poll]: a log line and [-ENOMEM]. *)
Definition logfuse_ioctl (path : string) (cmd : Z) (fileInfo : fuse_file_info)
    (flags : Z) (w : World) : Z * World :=
  let w := logfuse_log "logfuse_ioctl(%s)" [LStr path] w in
  (- ENOMEM, w).

Definition logfuse_poll (path : string) (fileInfo : fuse_file_info) (w : World)
  : Z * World :=
  let w := logfuse_log "logfuse_poll(%s)" [LStr path] w in
  (- ENOMEM, w).

(** ** Directories *)

(** The directory stream of the C library. *)
Definition at_pos (n : nat) (d : DIR) : DIR :=
  {| d_entries := d_entries d; d_tail := d_tail d; d_pos := n;
     d_tell := d_tell d; d_seek := d_seek d |}.

Definition opendir (path : string) (w : World) : option DIR * World :=
  match w_opendir w (w_trace w) path with
  | inl d => (Some (at_pos 0 d), add_call (lib_opendir path) w)
  | inr e => (None, set_errno (Zpos e) (add_call (lib_opendir path) w))
  end.

Definition closedir (d : option DIR) (w : World) : World :=
  add_call (lib_closedir d) w.

Definition seekdir (d : DIR) (loc : Z) (w : World) : DIR * World :=
  (at_pos (d_seek d loc) d, add_call (lib_seekdir loc) w).

Definition telldir (d : DIR) (w : World) : Z * World :=
  (d_tell d (d_pos d), add_call lib_telldir w).

Definition readdir (d : DIR) (w : World) : option dirent * DIR * World :=
  match d_entries d !! d_pos d with
  | Some e => (Some e, at_pos (S (d_pos d)) d, add_call lib_readdir w)
  | None =>
    match d_tail d with
    | None => (None, d, add_call lib_readdir w)
    | Some err => (None, d, set_errno (Zpos err) (add_call lib_readdir w))
    end
  end.

(** [malloc] for one [logfuse_dir_info]: a null pointer, or an address
    that is not in use. *)
Definition malloc (w : World) : option positive * World :=
  match w_sys w (w_trace w) lib_malloc with
  | Ok _ => (Some (fresh (dom (w_heap w))), add_call lib_malloc w)
  | Fail e => (None, set_errno (Zpos e) (add_call lib_malloc w))
  end.

(** [logfuse_opendir]. *)
Definition logfuse_opendir (path : string) (fileInfo : fuse_file_info) (w : World)
  : Z * fuse_file_info * World :=
  let '(d, w) := opendir path w in
  let sysErr := match d with Some _ => 0 | None => w_errno w end in
  let w := logfuse_log "logfuse_opendir(%s) err=%d" [LStr path; LInt sysErr] w in
  if negb (sysErr =? 0) then (- sysErr, fileInfo, w)
  else
    let '(dirInfo, w) := malloc w in
    match dirInfo with
    | None =>
      let w := closedir d w in
      (- ENOMEM, fileInfo, w)
    | Some p =>
      let w := set_heap (<[p := {| dir := d; entry := None; offset := 0 |}]> (w_heap w)) w in
      (0, {| flags := flags fileInfo; fh := Zpos p |}, w)
    end.

(** [logfuse_get_dir]: the word in [fileInfo->fh] read as a pointer. *)
Definition logfuse_get_dir (fileInfo : fuse_file_info) : option positive :=
  match fh fileInfo with
  | Zpos p => Some p
  | _ => None
  end.

(** The callback that receives the entries: the buffer it fills, the
    name, the attributes and the offset of the next entry; a result
    other than 0 says that the buffer is full. *)
Definition fuse_fill_dir_t (B : Type) : Type := B -> string -> stat -> Z -> B * Z.

(** The block under "Seek to the entry". *)
Definition readdir_seek (theOffset : Z) (dirInfo : logfuse_dir_info) (w : World)
  : exec (logfuse_dir_info * World) :=
  if negb (theOffset =? offset dirInfo) then
    match dir dirInfo with
    | None => Undefined
    | Some d =>
      let '(d, w) := seekdir d theOffset w in
      Returns ({| dir := Some d; entry := None; offset := theOffset |}, w)
    end
  else Returns (dirInfo, w).

(** The loop under "Read the info".  Each round takes one unit of
    [fuel]. *)
Fixpoint readdir_loop {B : Type} (fuel : nat) (path : string)
    (buffer : B) (filler : fuse_fill_dir_t B)
    (dirInfo : logfuse_dir_info) (w : World)
  : exec (logfuse_dir_info * B * World) :=
  match fuel with
  | O => OutOfFuel
  | S fuel =>
    match dir dirInfo with
    | None => Undefined
    | Some d =>
      (* Read the entry *)
      let '(e, d, w) :=
        match entry dirInfo with
        | None => readdir d w
        | Some e => (Some e, d, w)
        end in
      match e with
      | None =>
        Returns ({| dir := Some d; entry := None; offset := offset dirInfo |}, buffer, w)
      | Some e =>
        (* Get the info *)
        let statInfo :=
          {| st_ino := d_ino e; st_mode := to_mode_t (Z.shiftl (d_type e) 12) |} in
        let '(nextOffset, w) := telldir d w in
        let '(buffer, full) := filler buffer (d_name e) statInfo nextOffset in
        if negb (full =? 0) then
          let w := logfuse_log "logfuse_readdir(%s, %s) err=0"
                     [LStr path; LStr (d_name e)] w in
          Returns ({| dir := Some d; entry := Some e; offset := offset dirInfo |}, buffer, w)
        else
          (* Update our state *)
          readdir_loop fuel path buffer filler
            {| dir := Some d; entry := None; offset := nextOffset |} w
      end
    end
  end.

(** Rounds that are enough for the loop on this cursor. *)
Definition readdir_fuel (dirInfo : logfuse_dir_info) : nat :=
  match dir dirInfo with
  | Some d => S (S (length (d_entries d)))
  | None => 1
  end.

(** [logfuse_readdir].  The cursor is read through the pointer in
    [fileInfo->fh] and written back through it. *)
Definition logfuse_readdir {B : Type} (path : string) (buffer : B)
    (filler : fuse_fill_dir_t B) (theOffset : Z) (fileInfo : fuse_file_info)
    (w : World) : exec (Z * B * World) :=
  match logfuse_get_dir fileInfo with
  | None => Undefined
  | Some p =>
    match w_heap w !! p with
    | None => Undefined
    | Some dirInfo =>
      match readdir_seek theOffset dirInfo w with
      | Returns (dirInfo, w) =>
        match readdir_loop (readdir_fuel dirInfo) path buffer filler dirInfo w with
        | Returns (dirInfo, buffer, w) =>
          Returns (0, buffer, set_heap (<[p := dirInfo]> (w_heap w)) w)
        | Undefined => Undefined
        | OutOfFuel => OutOfFuel
        end
      | Undefined => Undefined
      | OutOfFuel => OutOfFuel
      end
    end
  end.

(** ** The receiving side of a directory read *)

(** One entry as the callback receives it. *)
Definition dir_item : Type := string * stat * Z.

(** The buffer of the framework: room for a number of entries, the
    entries it took, and every entry it was offered. *)
Record dirbuf := {
  db_room : nat;
  db_taken : list dir_item;
  db_seen : list dir_item
}.

Definition empty_buf (room : nat) : dirbuf :=
  {| db_room := room; db_taken := []; db_seen := [] |}.

(** The framework's callback: take the entry and answer 0 while there
    is room, answer 1 and leave the entry once the buffer is full. *)
Definition fill_dir : fuse_fill_dir_t dirbuf :=
  fun b name st off =>
    match db_room b with
    | O => ({| db_room := O; db_taken := db_taken b;
               db_seen := db_seen b ++ [(name, st, off)] |}, 1)
    | S r => ({| db_room := r; db_taken := db_taken b ++ [(name, st, off)];
                 db_seen := db_seen b ++ [(name, st, off)] |}, 0)
    end.

(** ** Notions for stating what a metadata update does *)

(** The calls for the selected fields of a request, in the order of
    the nine blocks of [logfuse_setattr_x] and [logfuse_fsetattr_x]. *)
Definition selected (wanted : bool) (c : call) (rest : list call) : list call :=
  if wanted then c :: rest else rest.

Definition setattr_calls (path : string) (a : setattr_x) : list call :=
  selected (SETATTR_WANTS_MODE a) (sys_lchmod path (mode a)) (
  selected (SETATTR_WANTS_UID a || SETATTR_WANTS_GID a)
    (sys_lchown path
       (if SETATTR_WANTS_UID a then uid a else id_unchanged)
       (if SETATTR_WANTS_GID a then gid a else id_unchanged)) (
  selected (SETATTR_WANTS_SIZE a) (sys_truncate path (size a)) (
  selected (SETATTR_WANTS_ACCTIME a)
    (sys_setattrlist path ATTR_CMN_ACCTIME (acctime a)) (
  selected (SETATTR_WANTS_MODTIME a)
    (sys_setattrlist path ATTR_CMN_MODTIME (modtime a)) (
  selected (SETATTR_WANTS_CRTIME a)
    (sys_setattrlist path ATTR_CMN_CRTIME (crtime a)) (
  selected (SETATTR_WANTS_CHGTIME a)
    (sys_setattrlist path ATTR_CMN_CHGTIME (chgtime a)) (
  selected (SETATTR_WANTS_BKUPTIME a)
    (sys_setattrlist path ATTR_CMN_BKUPTIME (bkuptime a)) (
  selected (SETATTR_WANTS_FLAGS a) (sys_lchflags path (xflags a)) [])))))))).

Definition fsetattr_calls (fd : Z) (a : setattr_x) : list call :=
  selected (SETATTR_WANTS_MODE a) (sys_fchmod fd (mode a)) (
  selected (SETATTR_WANTS_UID a || SETATTR_WANTS_GID a)
    (sys_fchown fd
       (if SETATTR_WANTS_UID a then uid a else id_unchanged)
       (if SETATTR_WANTS_GID a then gid a else id_unchanged)) (
  selected (SETATTR_WANTS_SIZE a) (sys_ftruncate fd (size a)) (
  selected (SETATTR_WANTS_ACCTIME a)
    (sys_fsetattrlist fd ATTR_CMN_ACCTIME (acctime a)) (
  selected (SETATTR_WANTS_MODTIME a)
    (sys_fsetattrlist fd ATTR_CMN_MODTIME (modtime a)) (
  selected (SETATTR_WANTS_CRTIME a)
    (sys_fsetattrlist fd ATTR_CMN_CRTIME (crtime a)) (
  selected (SETATTR_WANTS_CHGTIME a)
    (sys_fsetattrlist fd ATTR_CMN_CHGTIME (chgtime a)) (
  selected (SETATTR_WANTS_BKUPTIME a)
    (sys_fsetattrlist fd ATTR_CMN_BKUPTIME (bkuptime a)) (
  selected (SETATTR_WANTS_FLAGS a) (sys_fchflags fd (xflags a)) [])))))))).

(** [f] makes some first calls of [calls], in their order, and no
    other call. *)
Definition in_order (f : Z -> World -> Z * World) (calls : list call) : Prop :=
  forall sysErr w, exists n, w_trace (snd (f sysErr w)) = w_trace w ++ take n calls.

(** ** Notions for stating what a directory read does *)

(** The attributes [logfuse_readdir] makes up for an entry. *)
Definition entry_stat (e : dirent) : stat :=
  {| st_ino := d_ino e; st_mode := to_mode_t (Z.shiftl (d_type e) 12) |}.

Definition dir_item_of (e : dirent) (next : Z) : dir_item :=
  (d_name e, entry_stat e, next).

(** The name and attributes of an item, without its offset. *)
Definition item_entry (i : dir_item) : string * stat := fst i.
Definition item_offset (i : dir_item) : Z := snd i.

(** The entries a read has before it: the cached one, then the part of
    the stream that was not read yet. *)
Definition pending (c : logfuse_dir_info) : list dirent :=
  match dir c with
  | None => []
  | Some d =>
    match entry c with Some e => [e] | None => [] end
    ++ drop (d_pos d) (d_entries d)
  end.

(** The same entries as the callback is shown them, each with the
    token of the position behind it. *)
Fixpoint offers_from (tell : nat -> Z) (pos : nat) (es : list dirent)
  : list dir_item :=
  match es with
  | [] => []
  | e :: es => dir_item_of e (tell (S pos)) :: offers_from tell (S pos) es
  end.

Definition offers (c : logfuse_dir_info) : list dir_item :=
  match dir c with
  | None => []
  | Some d =>
    match entry c with
    | Some e => [dir_item_of e (d_tell d (d_pos d))]
    | None => []
    end
    ++ offers_from (d_tell d) (d_pos d) (drop (d_pos d) (d_entries d))
  end.

(** Handing a list of items to a callback, in order, until it reports
    that the buffer is full: the buffer after, how many items it took,
    and whether it reported stop (at the item behind those it took). *)
Fixpoint feed {B : Type} (filler : fuse_fill_dir_t B) (buffer : B)
    (items : list dir_item) : B * nat * bool :=
  match items with
  | [] => (buffer, 0%nat, false)
  | (name, st, next) :: items =>
    let '(buffer, full) := filler buffer name st next in
    if negb (full =? 0) then (buffer, 0%nat, true)
    else
      let '(buffer, n, stopped) := feed filler buffer items in
      (buffer, S n, stopped)
  end.

(** [w'] comes after [w]: the same system, the same cursors, and the
    calls of [w] followed by more calls. *)
Definition later (w w' : World) : Prop :=
  w_sys w' = w_sys w /\ w_opendir w' = w_opendir w /\
  w_heap w' = w_heap w /\ exists calls, w_trace w' = w_trace w ++ calls.

(** The cursor as the block under "Seek to the entry" leaves it. *)
Definition repositioned (theOffset : Z) (c : logfuse_dir_info) : logfuse_dir_info :=
  if negb (theOffset =? offset c) then
    match dir c with
    | Some d => {| dir := Some (at_pos (d_seek d theOffset) d);
                   entry := None; offset := theOffset |}
    | None => c
    end
  else c.

(** ** Worlds to run the program in *)

(** A world with nothing logged, no call made and no cursor allocated. *)
Definition new_world (sys : list call -> call -> sysret)
    (opd : list call -> string -> DIR + positive) : World :=
  {| w_sys := sys; w_opendir := opd; w_errno := 0;
     w_trace := []; w_log := []; w_heap := ∅ |}.

Definition no_dirs : list call -> string -> DIR + positive :=
  fun _ _ => inr 2%positive.

(** Every call succeeds with result 0. *)
Definition all_ok : list call -> call -> sysret := fun _ _ => Ok 0.

(** A request on an open file: descriptor 3, no flags. *)
Definition fd3 : fuse_file_info := {| flags := 0; fh := 3 |}.

Definition zero_time : timespec := {| tv_sec := 0; tv_nsec := 0 |}.

(** A request for the fields of [valid], with small values. *)
Definition request (valid : Z) : setattr_x :=
  {| valid := valid; mode := 420; uid := 501; gid := 20; size := 100;
     acctime := zero_time; modtime := zero_time; crtime := zero_time;
     chgtime := zero_time; bkuptime := zero_time; xflags := 0 |}.


(** [open] gives descriptor 5 for "/a" and fails with error 2 for any
    other path. *)
Definition only_a : list call -> call -> sysret :=
  fun _ c =>
    match c with
    | sys_open p _ _ => if String.eqb p "/a" then Ok 5 else Fail 2
    | _ => Ok 0
    end.

(** Changing the owner fails with error 1, every other call gives 0. *)
Definition chown_denied : list call -> call -> sysret :=
  fun _ c =>
    match c with
    | sys_lchown _ _ _ | sys_fchown _ _ _ => Fail 1
    | _ => Ok 0
    end.

(** Changing the size fails with error 27, every other call gives 0. *)
Definition truncate_fails : list call -> call -> sysret :=
  fun _ c =>
    match c with
    | sys_truncate _ _ | sys_ftruncate _ _ => Fail 27
    | _ => Ok 0
    end.

(** A directory with the entries "a", "b" and "c"; its position tokens
    are the positions themselves. *)
Definition abc : list dirent :=
  [ {| d_ino := 11; d_type := 8; d_name := "a" |};
    {| d_ino := 12; d_type := 8; d_name := "b" |};
    {| d_ino := 13; d_type := 4; d_name := "c" |} ].

Definition abc_dir : DIR :=
  {| d_entries := abc; d_tail := None; d_pos := 0;
     d_tell := Z.of_nat; d_seek := Z.to_nat |}.

(** [opendir] gives that directory for "/d" and fails with error 2 for
    any other path; every other call gives 0. *)
Definition abc_world : World :=
  new_world all_ok
    (fun _ p => if String.eqb p "/d" then inl abc_dir else inr 2%positive).

(** The same with [malloc] failing with error 12. *)
Definition no_memory : list call -> call -> sysret :=
  fun _ c => match c with lib_malloc => Fail 12 | _ => Ok 0 end.

Definition abc_world_oom : World :=
  new_world no_memory
    (fun _ p => if String.eqb p "/d" then inl abc_dir else inr 2%positive).

(** The handle and the world after "/d" was opened in [abc_world]. *)
Definition abc_handle : fuse_file_info := snd (fst (logfuse_opendir "/d" fd3 abc_world)).
Definition abc_opened : World := snd (logfuse_opendir "/d" fd3 abc_world).

(** A directory whose stream gives "a" and then fails with error 5. *)
Definition broken_dir : DIR :=
  {| d_entries := [ {| d_ino := 11; d_type := 8; d_name := "a" |} ];
     d_tail := Some 5%positive; d_pos := 0;
     d_tell := Z.of_nat; d_seek := Z.to_nat |}.

(** The world in which "/d" is that directory, and the result of
    opening it there. *)
Definition broken_world : World := new_world all_ok (fun _ _ => inl broken_dir).
Definition broken_handle : fuse_file_info :=
  snd (fst (logfuse_opendir "/d" fd3 broken_world)).
Definition broken_opened : World := snd (logfuse_opendir "/d" fd3 broken_world).

(** * Further code of the program *)

From Stdlib Require Import DecimalString Btauto.

(** ** Directories: release, and the tokens of a stream *)

(** [free] on a cursor the program allocated. *)
Definition free (p : positive) (w : World) : World :=
  set_heap (delete p (w_heap w)) w.

(** [logfuse_releasedir]: the cursor is read through the pointer in
    [fileInfo->fh]; its stream is closed and the cursor is freed. *)
Definition logfuse_releasedir (path : string) (fileInfo : fuse_file_info) (w : World)
  : exec (Z * World) :=
  match logfuse_get_dir fileInfo with
  | None => Undefined
  | Some p =>
    match w_heap w !! p with
    | None => Undefined
    | Some dirInfo =>
      let w := logfuse_log "logfuse_releasedir(%s) err=0" [LStr path] w in
      let w := closedir (dir dirInfo) w in
      let w := free p w in
      Returns (0, w)
    end
  end.

(** [seekdir] takes a token of [telldir] back to its position. *)
Definition tokens_round_trip (d : DIR) : Prop :=
  forall i, d_seek d (d_tell d i) = i.

(** The cursor agrees with its stream: the offset of the cursor stands
    for the position of the entry the next read hands over first; the
    stream is at that position, or one behind it when that entry is
    cached. *)
Definition cursor_ok (c : logfuse_dir_info) : Prop :=
  exists d,
    dir c = Some d /\ tokens_round_trip d /\
    match entry c with
    | None => d_pos d = d_seek d (offset c)
    | Some e =>
      d_pos d = S (d_seek d (offset c)) /\
      d_entries d !! d_seek d (offset c) = Some e
    end.

(** ** Setting several attributes at once: what is reported *)


(** The size fails with error 27 and the flags with error 1; every
    other call gives 0. *)
Definition size_and_flags_fail : list call -> call -> sysret :=
  fun _ c =>
    match c with
    | sys_truncate _ _ | sys_ftruncate _ _ => Fail 27
    | sys_lchflags _ _ | sys_fchflags _ _ => Fail 1
    | _ => Ok 0
    end.

(** Changing the mode fails with error 1, every other call gives 0. *)
Definition chmod_denied : list call -> call -> sysret :=
  fun _ c =>
    match c with
    | sys_lchmod _ _ | sys_fchmod _ _ => Fail 1
    | _ => Ok 0
    end.

(** [listxattr] gives a list of 17 bytes for "/a" and fails with error
    2 for any other path. *)
Definition xattrs_of_a : list call -> call -> sysret :=
  fun _ c =>
    match c with
    | sys_listxattr p _ => if String.eqb p "/a" then Ok 17 else Fail 2
    | _ => Ok 0
    end.

(** ** Further calls into the system *)

(** [fstore_t], the request of [F_PREALLOCATE]. *)
Record fstore_t := {
  fst_flags : Z;
  fst_posmode : Z;
  fst_offset : Z;
  fst_length : Z;
  fst_bytesalloc : Z
}.

(** [struct stat] as the attribute queries use it: the block size, and
    the other fields as a whole. *)
Record stat_buf := { st_blksize : Z; st_fields : list Z }.

(** The calls of the operations below. *)
Inductive xcall :=
| sys_dup (fd : Z)
| sys_close (fd : Z)
| sys_fcntl_preallocate (fd : Z) (theInfo : fstore_t)
| sys_readlink (path : string) (bufsiz : Z)
| sys_lstat (path : string)
| sys_fstat (fd : Z)
| sys_getattrlist_times (path : string)
| sys_pread (fd : Z) (nbyte : Z) (offset : Z)
| sys_pwrite (fd : Z) (buffer : list Z) (nbyte : Z) (offset : Z)
| sys_getxattr (path : string) (name : string) (size : Z) (position : Z).

(** The world with those calls: how the system answers them (given the
    calls made so far), the text of the symbolic link at a path, the
    attributes and the creation and backup times the system reports
    when a query succeeds, what a call that fills a buffer leaves in
    the buffer when it succeeds, and the calls made so far (oldest
    first).
    [errno] and the log sink are those of the [World]. *)
Record Host := {
  h_world : World;
  h_sys : list xcall -> xcall -> sysret;
  h_link : string -> list Z;
  h_stat : xcall -> stat_buf;
  h_times : string -> timespec * timespec;
  h_buffer : xcall -> list Z -> list Z;
  h_trace : list xcall
}.

Definition with_world (w : World) (h : Host) : Host :=
  {| h_world := w; h_sys := h_sys h; h_link := h_link h; h_stat := h_stat h;
     h_times := h_times h; h_buffer := h_buffer h; h_trace := h_trace h |}.

Definition add_xcall (c : xcall) (h : Host) : Host :=
  {| h_world := h_world h; h_sys := h_sys h; h_link := h_link h; h_stat := h_stat h;
     h_times := h_times h; h_buffer := h_buffer h; h_trace := h_trace h ++ [c] |}.

(** A call that reports through its result and [errno]; the second
    component says whether it failed. *)
Definition xnative (c : xcall) (h : Host) : Z * Host :=
  match h_sys h (h_trace h) c with
  | Ok r => (r, add_xcall c h)
  | Fail e => (-1, with_world (set_errno (Zpos e) (h_world h)) (add_xcall c h))
  end.

(** [logfuse_log] in this world. *)
Definition xlog (fmt : string) (args : list logarg) (h : Host) : Host :=
  with_world (logfuse_log fmt args (h_world h)) h.

Definition xerrno (h : Host) : Z := w_errno (h_world h).

(** ** Files: flush *)

(** [logfuse_flush]: [close(dup(fileInfo->fh))]. *)
Definition logfuse_flush (path : string) (fileInfo : fuse_file_info) (h : Host)
  : Z * Host :=
  let '(copy, h) := xnative (sys_dup (to_int (fh fileInfo))) h in
  let '(sysErr, h) := xnative (sys_close copy) h in
  let h := xlog "logfuse_flush(%s, fd=%lld) err=%d"
             [LStr path; LInt (fh fileInfo); LInt sysErr] h in
  (RETURN_FUSE_ERRNO sysErr (xerrno h), h).

(** ** Files and attributes: calls whose result is a length *)




(** ** Symbolic links *)

Definition to_size_t (x : Z) : Z := x mod 2 ^ 64.

(** The text a buffer holds as a C string: the bytes before the first
    zero byte. *)
Fixpoint c_string (buffer : list Z) : list Z :=
  match buffer with
  | [] => []
  | b :: buffer => if b =? 0 then [] else b :: c_string buffer
  end.

Definition text_of_bytes (bs : list Z) : string :=
  string_of_list_ascii (List.map (fun b => Ascii.ascii_of_N (Z.to_N b)) bs).

(** [readlink]: the text of the link, cut to [bufsiz] bytes, is copied
    to the start of the buffer, with no zero byte behind it; the result
    is the number of bytes copied.  Copying past the end of the buffer
    is undefined. *)
Definition readlink (path : string) (buffer : list Z) (bufsiz : Z) (h : Host)
  : exec (Z * list Z * Host) :=
  match h_sys h (h_trace h) (sys_readlink path bufsiz) with
  | Fail e =>
    Returns (-1, buffer,
             with_world (set_errno (Zpos e) (h_world h))
               (add_xcall (sys_readlink path bufsiz) h))
  | Ok _ =>
    let n := Z.min (Z.of_nat (length (h_link h path))) bufsiz in
    if Z.of_nat (length buffer) <? n then Undefined
    else
      Returns (n,
               take (Z.to_nat n) (h_link h path) ++ drop (Z.to_nat n) buffer,
               add_xcall (sys_readlink path bufsiz) h)
  end.

(** [logfuse_readlink].  The buffer is the memory of [size] bytes the
    caller hands over; a store outside it is undefined. *)
Definition logfuse_readlink (path : string) (buffer : list Z) (size : Z) (h : Host)
  : exec (Z * list Z * Host) :=
  match readlink path buffer (to_size_t (size - 1)) h with
  | Returns (r, buffer, h) =>
    let sysErr := to_int r in
    let i := if sysErr =? -1 then 0 else sysErr in
    if (0 <=? i) && (i <? Z.of_nat (length buffer)) then
      let buffer := <[Z.to_nat i := 0]> buffer in
      let h := xlog "logfuse_readlink(%s, %s) err=%d"
                 [LStr path; LStr (text_of_bytes (c_string buffer)); LInt sysErr] h in
      Returns (RETURN_FUSE_ERRNO sysErr (xerrno h), buffer, h)
    else Undefined
  | Undefined => Undefined
  | OutOfFuel => OutOfFuel
  end.


(** ** Space for a file *)

(** The constants of [sys/vnode.h], [fcntl.h] and [errno.h] that
    [logfuse_fallocate] names; the headers are not part of the
    source. *)
Record fallocate_consts := {
  PREALLOCATE : Z;
  ALLOCATECONTIG : Z;
  ALLOCATEALL : Z;
  ALLOCATEFROMPEOF : Z;
  ALLOCATEFROMVOL : Z;
  F_ALLOCATECONTIG : Z;
  F_ALLOCATEALL : Z;
  F_PEOFPOSMODE : Z;
  F_VOLPOSMODE : Z;
  ENOTSUP : Z
}.

Definition set_fst_flags (f : Z) (s : fstore_t) : fstore_t :=
  {| fst_flags := f; fst_posmode := fst_posmode s; fst_offset := fst_offset s;
     fst_length := fst_length s; fst_bytesalloc := fst_bytesalloc s |}.

Definition set_fst_posmode (m : Z) (s : fstore_t) : fstore_t :=
  {| fst_flags := fst_flags s; fst_posmode := m; fst_offset := fst_offset s;
     fst_length := fst_length s; fst_bytesalloc := fst_bytesalloc s |}.

(** [logfuse_fallocate]. *)
Definition logfuse_fallocate (k : fallocate_consts) (path : string) (mode : Z)
    (offset length : Z) (fileInfo : fuse_file_info) (h : Host) : Z * Host :=
  (* Check our parameters *)
  if Z.land mode (PREALLOCATE k) =? 0 then (- ENOTSUP k, h)
  else
    (* Get the state we need *)
    let theInfo := {| fst_flags := 0; fst_posmode := 0; fst_offset := offset;
                      fst_length := length; fst_bytesalloc := 0 |} in
    let theInfo :=
      if negb (Z.land mode (ALLOCATECONTIG k) =? 0)
      then set_fst_flags (Z.lor (fst_flags theInfo) (F_ALLOCATECONTIG k)) theInfo
      else theInfo in
    let theInfo :=
      if negb (Z.land mode (ALLOCATEALL k) =? 0)
      then set_fst_flags (Z.lor (fst_flags theInfo) (F_ALLOCATEALL k)) theInfo
      else theInfo in
    let theInfo :=
      if negb (Z.land mode (ALLOCATEFROMPEOF k) =? 0)
      then set_fst_posmode (F_PEOFPOSMODE k) theInfo
      else theInfo in
    let theInfo :=
      if negb (Z.land mode (ALLOCATEFROMVOL k) =? 0)
      then set_fst_posmode (F_VOLPOSMODE k) theInfo
      else theInfo in
    (* Allocate the space *)
    let '(sysErr, h) :=
      xnative (sys_fcntl_preallocate (to_int (fh fileInfo)) theInfo) h in
    let h := xlog "logfuse_fallocate(%s, %d, %lld, %lld) err=%d"
               [LStr path; LInt mode; LInt offset; LInt length; LInt sysErr] h in
    (RETURN_FUSE_ERRNO sysErr (xerrno h), h).

(** ** Attribute queries *)

(** [lstat] and [fstat]: on success the buffer holds what the system
    reports; on failure it is left as it was. *)
Definition stat_call (c : xcall) (statInfo : stat_buf) (h : Host)
  : Z * stat_buf * Host :=
  match h_sys h (h_trace h) c with
  | Ok r => (r, h_stat h c, add_xcall c h)
  | Fail e =>
    (-1, statInfo, with_world (set_errno (Zpos e) (h_world h)) (add_xcall c h))
  end.

(** [logfuse_getattr] and [logfuse_fgetattr]. *)
Definition logfuse_getattr (path : string) (statInfo : stat_buf) (h : Host)
  : Z * stat_buf * Host :=
  let '(sysErr, statInfo, h) := stat_call (sys_lstat path) statInfo h in
  let statInfo := {| st_blksize := 0; st_fields := st_fields statInfo |} in
  let h := xlog "logfuse_getattr(%s) err=%d" [LStr path; LInt sysErr] h in
  (RETURN_FUSE_ERRNO sysErr (xerrno h), statInfo, h).

Definition logfuse_fgetattr (path : string) (statInfo : stat_buf)
    (fileInfo : fuse_file_info) (h : Host) : Z * stat_buf * Host :=
  let '(sysErr, statInfo, h) :=
    stat_call (sys_fstat (to_int (fh fileInfo))) statInfo h in
  let statInfo := {| st_blksize := 0; st_fields := st_fields statInfo |} in
  let h := xlog "logfuse_fgetattr(%s) err=%d" [LStr path; LInt sysErr] h in
  (RETURN_FUSE_ERRNO sysErr (xerrno h), statInfo, h).

(** [getattrlist] for the creation and backup times: on success the
    attribute data holds both, on failure it is left as it was. *)
Definition getattrlist_times (path : string) (attributeData : timespec * timespec)
    (h : Host) : Z * (timespec * timespec) * Host :=
  match h_sys h (h_trace h) (sys_getattrlist_times path) with
  | Ok r => (r, h_times h path, add_xcall (sys_getattrlist_times path) h)
  | Fail e =>
    (-1, attributeData,
     with_world (set_errno (Zpos e) (h_world h))
       (add_xcall (sys_getattrlist_times path) h))
  end.

(** [logfuse_getxtimes].  [attributeData] is what the local variable
    holds at entry; the result carries the backup and the creation time
    the function stores through its two pointers. *)
Definition logfuse_getxtimes (path : string) (attributeData : timespec * timespec)
    (h : Host) : Z * timespec * timespec * Host :=
  let '(sysErr, (createTime, backupTime), h) :=
    getattrlist_times path attributeData h in
  let '(backupOut, createOut) :=
    if sysErr =? 0 then (backupTime, createTime)
    else ({| tv_sec := 0; tv_nsec := 0 |}, {| tv_sec := 0; tv_nsec := 0 |}) in
  let h := xlog "logfuse_getxtimes(%s) err=%d" [LStr path; LInt sysErr] h in
  (RETURN_FUSE_ERRNO sysErr (xerrno h), backupOut, createOut, h).

(** ** Mounting: the capabilities asked for *)

Definition to_uint32 (x : Z) : Z := x mod 2 ^ 32.

Record fuse_conn_info := {
  proto_major : Z;
  proto_minor : Z;
  max_write : Z;
  max_readahead : Z;
  capable : Z;
  want : Z
}.

(** The capability bits of [fuse_common.h] that [logfuse_init] names;
    the header is not part of the source. *)
Record fuse_caps := {
  FUSE_CAP_ASYNC_READ : Z;
  FUSE_CAP_POSIX_LOCKS : Z;
  FUSE_CAP_ATOMIC_O_TRUNC : Z;
  FUSE_CAP_BIG_WRITES : Z;
  FUSE_CAP_FLOCK_LOCKS : Z;
  FUSE_CAP_ALLOCATE : Z;
  FUSE_CAP_EXCHANGE_DATA : Z;
  FUSE_CAP_CASE_INSENSITIVE : Z;
  FUSE_CAP_VOL_RENAME : Z;
  FUSE_CAP_XTIMES : Z
}.

(** [fsConnection->want |= cap], on the 32-bit unsigned field. *)
Definition want_also (cap : Z) (c : fuse_conn_info) : fuse_conn_info :=
  {| proto_major := proto_major c; proto_minor := proto_minor c;
     max_write := max_write c; max_readahead := max_readahead c;
     capable := capable c; want := to_uint32 (Z.lor (want c) cap) |}.

(** [logfuse_init]; the result is the connection record as the
    function leaves it (the function itself returns [nullptr]). *)
Definition logfuse_init (k : fuse_caps) (fsConnection : fuse_conn_info) (w : World)
  : fuse_conn_info * World :=
  let w := logfuse_log
             "logfuse_init: protocol=%d.%d, max_write=%d, max_read=%d, caps=0x%0x"
             [LInt (proto_major fsConnection); LInt (proto_minor fsConnection);
              LInt (max_write fsConnection); LInt (max_readahead fsConnection);
              LInt (capable fsConnection)] w in
  let fsConnection := want_also (FUSE_CAP_ASYNC_READ k) fsConnection in
  let fsConnection := want_also (FUSE_CAP_POSIX_LOCKS k) fsConnection in
  let fsConnection := want_also (FUSE_CAP_ATOMIC_O_TRUNC k) fsConnection in
  let fsConnection := want_also (FUSE_CAP_BIG_WRITES k) fsConnection in
  let fsConnection := want_also (FUSE_CAP_FLOCK_LOCKS k) fsConnection in
  let fsConnection := want_also (FUSE_CAP_ALLOCATE k) fsConnection in
  let fsConnection := want_also (FUSE_CAP_EXCHANGE_DATA k) fsConnection in
  let fsConnection := want_also (FUSE_CAP_CASE_INSENSITIVE k) fsConnection in
  let fsConnection := want_also (FUSE_CAP_VOL_RENAME k) fsConnection in
  let fsConnection := want_also (FUSE_CAP_XTIMES k) fsConnection in
  (fsConnection, w).

Definition all_caps (k : fuse_caps) : list Z :=
  [FUSE_CAP_ASYNC_READ k; FUSE_CAP_POSIX_LOCKS k; FUSE_CAP_ATOMIC_O_TRUNC k;
   FUSE_CAP_BIG_WRITES k; FUSE_CAP_FLOCK_LOCKS k; FUSE_CAP_ALLOCATE k;
   FUSE_CAP_EXCHANGE_DATA k; FUSE_CAP_CASE_INSENSITIVE k; FUSE_CAP_VOL_RENAME k;
   FUSE_CAP_XTIMES k].

(** ** Bit fields as text, for the log *)

(** [std::to_string] of an [int]. *)
Definition to_string (x : Z) : string := NilZero.string_of_int (Z.to_int x).

(** [TEXT_BIT(_flag, _bit)]; [name] is [#_bit]. *)
Definition TEXT_BIT (flag bit : Z) (name : string) (theText : string) : string :=
  if Z.land flag bit =? bit then
    if String.eqb theText EmptyString then name
    else String.append theText (String.append name " | ")
  else theText.

(** [TEXT_END(_flag)]. *)
Definition TEXT_END (flag : Z) (theText : string) : string :=
  if String.eqb theText EmptyString then to_string flag else theText.

(** The constants of [unistd.h] and [fcntl.h] that the two functions
    name; the headers are not part of the source. *)
Record access_consts := { F_OK : Z; R_OK : Z; W_OK : Z; X_OK : Z }.

Record open_consts := {
  O_RDONLY : Z; O_WRONLY : Z; O_RDWR : Z; O_NONBLOCK : Z; O_APPEND : Z;
  O_SHLOCK : Z; O_EXLOCK : Z; O_NOFOLLOW : Z; O_CREAT : Z; O_TRUNC : Z;
  O_EXCL : Z; O_EVTONLY : Z; O_SYMLINK : Z; O_CLOEXEC : Z
}.

Definition logfuse_str_access_mode (k : access_consts) (mode : Z) : string :=
  let theText := EmptyString in
  let theText := TEXT_BIT mode (F_OK k) "F_OK" theText in
  let theText := TEXT_BIT mode (R_OK k) "R_OK" theText in
  let theText := TEXT_BIT mode (W_OK k) "W_OK" theText in
  let theText := TEXT_BIT mode (X_OK k) "X_OK" theText in
  TEXT_END mode theText.

Definition logfuse_str_open_flags (k : open_consts) (flags : Z) : string :=
  let theText := EmptyString in
  let theText := TEXT_BIT flags (O_RDONLY k) "O_RDONLY" theText in
  let theText := TEXT_BIT flags (O_WRONLY k) "O_WRONLY" theText in
  let theText := TEXT_BIT flags (O_RDWR k) "O_RDWR" theText in
  let theText := TEXT_BIT flags (O_NONBLOCK k) "O_NONBLOCK" theText in
  let theText := TEXT_BIT flags (O_APPEND k) "O_APPEND" theText in
  let theText := TEXT_BIT flags (O_SHLOCK k) "O_SHLOCK" theText in
  let theText := TEXT_BIT flags (O_EXLOCK k) "O_EXLOCK" theText in
  let theText := TEXT_BIT flags (O_NOFOLLOW k) "O_NOFOLLOW" theText in
  let theText := TEXT_BIT flags (O_CREAT k) "O_CREAT" theText in
  let theText := TEXT_BIT flags (O_TRUNC k) "O_TRUNC" theText in
  let theText := TEXT_BIT flags (O_EXCL k) "O_EXCL" theText in
  let theText := TEXT_BIT flags (O_EVTONLY k) "O_EVTONLY" theText in
  let theText := TEXT_BIT flags (O_SYMLINK k) "O_SYMLINK" theText in
  let theText := TEXT_BIT flags (O_CLOEXEC k) "O_CLOEXEC" theText in
  TEXT_END flags theText.

(** The names whose bits are all set in [flag], in the order of the
    table. *)
Definition names_set (flag : Z) (table : list (Z * string)) : list string :=
  List.map snd (List.filter (fun p => Z.land flag (fst p) =? fst p) table).

(** [TEXT_BIT] for each row of a table, in order. *)
Definition text_bits (flag : Z) (table : list (Z * string)) (theText : string)
  : string :=
  List.fold_left (fun t p => TEXT_BIT flag (fst p) (snd p) t) table theText.

(** Each further name with the separator behind it. *)
Definition names_behind (names : list string) : string :=
  List.fold_right (fun n rest => String.append (String.append n " | ") rest)
    EmptyString names.

(** The text for a list of names: the first name as it is, each further
    name followed by the separator; the number when there is no name. *)
Definition text_of_names (flag : Z) (names : list string) : string :=
  match names with
  | [] => to_string flag
  | name :: names =>
    String.append name (names_behind names)
  end.

Definition access_table (k : access_consts) : list (Z * string) :=
  [(F_OK k, "F_OK"); (R_OK k, "R_OK"); (W_OK k, "W_OK"); (X_OK k, "X_OK")]%string.

Definition open_table (k : open_consts) : list (Z * string) :=
  [(O_RDONLY k, "O_RDONLY"); (O_WRONLY k, "O_WRONLY"); (O_RDWR k, "O_RDWR");
   (O_NONBLOCK k, "O_NONBLOCK"); (O_APPEND k, "O_APPEND"); (O_SHLOCK k, "O_SHLOCK");
   (O_EXLOCK k, "O_EXLOCK"); (O_NOFOLLOW k, "O_NOFOLLOW"); (O_CREAT k, "O_CREAT");
   (O_TRUNC k, "O_TRUNC"); (O_EXCL k, "O_EXCL"); (O_EVTONLY k, "O_EVTONLY");
   (O_SYMLINK k, "O_SYMLINK"); (O_CLOEXEC k, "O_CLOEXEC")]%string.

(** ** Worlds and constants for the examples *)

Definition new_host (sys : list xcall -> xcall -> sysret) (link : string -> list Z)
  : Host :=
  {| h_world := new_world all_ok no_dirs; h_sys := sys; h_link := link;
     h_stat := fun _ => {| st_blksize := 4096; st_fields := [1; 2; 3] |};
     h_times := fun _ => ({| tv_sec := 100; tv_nsec := 1 |},
                          {| tv_sec := 200; tv_nsec := 2 |});
     h_buffer := fun _ buffer => buffer;
     h_trace := [] |}.

Definition no_links : string -> list Z := fun _ => [].

(** The link at every path reads "abcde". *)
Definition link_abcde : string -> list Z := fun _ => [97; 98; 99; 100; 101].

Definition host_ok : list xcall -> xcall -> sysret := fun _ _ => Ok 0.

(** [dup] hands out descriptor 7; [close] succeeds. *)
Definition dup_gives_7 : list xcall -> xcall -> sysret :=
  fun _ c => match c with sys_dup _ => Ok 7 | _ => Ok 0 end.

(** No descriptor is left ([EMFILE], 24), so [dup] fails, and [close]
    of -1 fails with [EBADF] (9). *)
Definition no_descriptor_left : list xcall -> xcall -> sysret :=
  fun _ c => match c with
             | sys_dup _ => Fail 24
             | sys_close _ => Fail 9
             | _ => Ok 0
             end.




Definition host_fails (e : positive) : list xcall -> xcall -> sysret :=
  fun _ _ => Fail e.

(** The values of macOS for the constants of [logfuse_fallocate]. *)
Definition macos_fallocate : fallocate_consts :=
  {| PREALLOCATE := 1; ALLOCATECONTIG := 2; ALLOCATEALL := 4;
     ALLOCATEFROMPEOF := 16; ALLOCATEFROMVOL := 32;
     F_ALLOCATECONTIG := 2; F_ALLOCATEALL := 4;
     F_PEOFPOSMODE := 3; F_VOLPOSMODE := 4; ENOTSUP := 45 |}.

Definition posix_access : access_consts :=
  {| F_OK := 0; R_OK := 4; W_OK := 2; X_OK := 1 |}.

(** * Properties *)

(** ** Error translation *)

Lemma native_trace (c : call) (w : World) :
  w_trace (snd (native c w)) = w_trace w ++ [c].
Proof. unfold native. destruct (w_sys w (w_trace w) c); reflexivity. Qed.

Lemma native_Ok (c : call) (w : World) (r : Z) :
  w_sys w (w_trace w) c = Ok r -> native c w = (r, add_call c w).
Proof. intros H. unfold native. rewrite H. reflexivity. Qed.

Lemma native_Fail (c : call) (w : World) (e : positive) :
  w_sys w (w_trace w) c = Fail e ->
  native c w = (-1, set_errno (Zpos e) (add_call c w)).
Proof. intros H. unfold native. rewrite H. reflexivity. Qed.

Lemma to_int_small (x : Z) : - 2 ^ 31 <= x < 2 ^ 31 -> to_int x = x.
Proof.
  intros H. unfold to_int.
  rewrite Z.mod_small by lia. lia.
Qed.




(** [logfuse_listxattr] narrows an [ssize_t] to the [int] it returns;
    a length that fits an [int] is returned as it is. *)
Lemma logfuse_listxattr_result (path list : string) (size r : Z) (w : World) :
  0 <= r < 2 ^ 31 ->
  w_sys w (w_trace w) (sys_listxattr path size) = Ok r ->
  fst (logfuse_listxattr path list size w) = r.
Proof.
  intros Hr He. unfold logfuse_listxattr. rewrite (native_Ok _ _ _ He). simpl.
  unfold RETURN_FUSE_ERRNO. destruct (Z.eqb_spec r (-1)); [lia |].
  apply to_int_small. lia.
Qed.

(** ** Stubs *)

(** C9.  [logfuse_ioctl] and [logfuse_poll] return the same fixed code
    [-ENOMEM] on every input, and neither makes a call into the system:
    the calls made, [errno] and the heap are as before. *)
Theorem stubs_fixed_code (path : string) (cmd fl : Z) (fileInfo : fuse_file_info)
    (w : World) :
  fst (logfuse_ioctl path cmd fileInfo fl w) = - ENOMEM /\
  fst (logfuse_poll path fileInfo w) = - ENOMEM /\
  w_trace (snd (logfuse_ioctl path cmd fileInfo fl w)) = w_trace w /\
  w_trace (snd (logfuse_poll path fileInfo w)) = w_trace w /\
  w_errno (snd (logfuse_ioctl path cmd fileInfo fl w)) = w_errno w /\
  w_errno (snd (logfuse_poll path fileInfo w)) = w_errno w /\
  w_heap (snd (logfuse_ioctl path cmd fileInfo fl w)) = w_heap w /\
  w_heap (snd (logfuse_poll path fileInfo w)) = w_heap w.
Proof. repeat split. Qed.

(** ** Files: open and create *)

Lemma to_uint64_fd (fd : Z) : 0 <= fd < 2 ^ 31 -> to_uint64 fd = fd.
Proof. intros H. unfold to_uint64. apply Z.mod_small. lia. Qed.

(** C8.  [logfuse_open] and [logfuse_create] acquire the descriptor the
    same way.  Each makes one call of [open].  When it gives a
    descriptor [fd] the operation returns 0 and [fh] holds [fd]; when it
    fails with error [e] the operation returns [-e] and the handle is
    as it was. *)
Theorem open_create_contract (path : string) (m : Z) (fileInfo : fuse_file_info)
    (w : World) :
  let o := sys_open path (flags fileInfo) None in
  let c := sys_open path (flags fileInfo) (Some m) in
  (forall fd, 0 <= fd < 2 ^ 31 -> w_sys w (w_trace w) o = Ok fd ->
     exists w', logfuse_open path fileInfo w
                = (0, {| flags := flags fileInfo; fh := fd |}, w') /\
                w_trace w' = w_trace w ++ [o]) /\
  (forall e, w_sys w (w_trace w) o = Fail e ->
     exists w', logfuse_open path fileInfo w = (- Zpos e, fileInfo, w') /\
                w_trace w' = w_trace w ++ [o]) /\
  (forall fd, 0 <= fd < 2 ^ 31 -> w_sys w (w_trace w) c = Ok fd ->
     exists w', logfuse_create path m fileInfo w
                = (0, {| flags := flags fileInfo; fh := fd |}, w') /\
                w_trace w' = w_trace w ++ [c]) /\
  (forall e, w_sys w (w_trace w) c = Fail e ->
     exists w', logfuse_create path m fileInfo w = (- Zpos e, fileInfo, w') /\
                w_trace w' = w_trace w ++ [c]).
Proof.
  intros o c. repeat split.
  - intros fd Hfd He. unfold logfuse_open. fold o. rewrite (native_Ok _ _ _ He).
    destruct (Z.eqb_spec fd (-1)); [lia |].
    rewrite (to_uint64_fd fd Hfd). eexists. split; reflexivity.
  - intros e He. unfold logfuse_open. fold o. rewrite (native_Fail _ _ _ He).
    simpl. eexists. split; reflexivity.
  - intros fd Hfd He. unfold logfuse_create. fold c. rewrite (native_Ok _ _ _ He).
    destruct (Z.eqb_spec fd (-1)); [lia |].
    rewrite (to_uint64_fd fd Hfd). eexists. split; reflexivity.
  - intros e He. unfold logfuse_create. fold c. rewrite (native_Fail _ _ _ He).
    simpl. eexists. split; reflexivity.
Qed.

Lemma open_create_contract_witness :
  fst (logfuse_open "/a" fd3 (new_world only_a no_dirs)) = (0, {| flags := 0; fh := 5 |}) /\
  fst (logfuse_open "/b" fd3 (new_world only_a no_dirs)) = (-2, fd3) /\
  fst (logfuse_create "/a" 420 fd3 (new_world only_a no_dirs)) = (0, {| flags := 0; fh := 5 |}) /\
  fst (logfuse_create "/b" 420 fd3 (new_world only_a no_dirs)) = (-2, fd3).
Proof.
  destruct (open_create_contract "/a" 420 fd3 (new_world only_a no_dirs))
    as (Ho & _ & Hc & _).
  destruct (open_create_contract "/b" 420 fd3 (new_world only_a no_dirs))
    as (_ & Ho' & _ & Hc').
  destruct (Ho 5) as (w1 & E1 & _); [lia | reflexivity |].
  destruct (Ho' 2%positive) as (w2 & E2 & _); [reflexivity |].
  destruct (Hc 5) as (w3 & E3 & _); [lia | reflexivity |].
  destruct (Hc' 2%positive) as (w4 & E4 & _); [reflexivity |].
  rewrite E1, E2, E3, E4. repeat split.
Defined.

(** ** Setting several attributes at once *)

Lemma in_order_done (path : string) (calls : list call) :
  in_order (setattr_done path) calls.
Proof. intros sysErr w. exists 0%nat. rewrite take_0. cbn. now rewrite app_nil_r. Qed.

Lemma in_order_step (done rest : Z -> World -> Z * World) (wanted : bool)
    (c : call) (leave : Z -> bool) (calls : list call) :
  (forall l, in_order done l) -> in_order rest calls ->
  in_order (attr_step done wanted (native c) leave rest) (selected wanted c calls).
Proof.
  intros Hdone Hrest sysErr w. unfold attr_step, selected.
  destruct wanted; [| apply Hrest].
  destruct (native c w) as [r w1] eqn:E.
  assert (Ht : w_trace w1 = w_trace w ++ [c]).
  { pose proof (native_trace c w) as H. now rewrite E in H. }
  destruct (leave r).
  - exists 1%nat.
    destruct (Hdone [] r w1) as (m & Hm). rewrite Hm, Ht.
    now rewrite take_nil, app_nil_r.
  - destruct (Hrest r w1) as (n & Hn). exists (S n).
    rewrite Hn, Ht, <- app_assoc. reflexivity.
Qed.

(** Both functions make the calls for the selected fields in the order
    mode, ownership, size, access time, modification time, creation
    time, change time, backup time, flags, up to the point where they
    leave. *)
Lemma setattr_x_in_order (path : string) (a : setattr_x) :
  in_order (logfuse_setattr_x path a) (setattr_calls path a).
Proof.
  unfold logfuse_setattr_x, setattr_calls, logfuse_set_timespec. cbv zeta.
  repeat (apply in_order_step; [apply in_order_done |]).
  apply in_order_done.
Qed.

Lemma fsetattr_x_in_order (path : string) (a : setattr_x) (fileInfo : fuse_file_info) :
  in_order (logfuse_fsetattr_x path a fileInfo) (fsetattr_calls (to_int (fh fileInfo)) a).
Proof.
  unfold logfuse_fsetattr_x, fsetattr_calls, logfuse_fset_timespec. cbv zeta.
  repeat (apply in_order_step; [apply in_order_done |]).
  apply in_order_done.
Qed.

(** A failing change of mode ends both functions with its error: the
    first block leaves on a failure. *)
Lemma setattr_mode_failure (path : string) (a : setattr_x)
    (fileInfo : fuse_file_info) (sysErr0 : Z) (w : World) (e : positive) :
  SETATTR_WANTS_MODE a = true ->
  (w_sys w (w_trace w) (sys_lchmod path (mode a)) = Fail e ->
   fst (logfuse_setattr_x path a sysErr0 w) = - Zpos e /\
   w_trace (snd (logfuse_setattr_x path a sysErr0 w))
   = w_trace w ++ [sys_lchmod path (mode a)]) /\
  (w_sys w (w_trace w) (sys_fchmod (to_int (fh fileInfo)) (mode a)) = Fail e ->
   fst (logfuse_fsetattr_x path a fileInfo sysErr0 w) = - Zpos e /\
   w_trace (snd (logfuse_fsetattr_x path a fileInfo sysErr0 w))
   = w_trace w ++ [sys_fchmod (to_int (fh fileInfo)) (mode a)]).
Proof.
  intros Hmode. split; intros Hchmod.
  - unfold logfuse_setattr_x, attr_step. cbv zeta.
    rewrite Hmode, (native_Fail _ _ _ Hchmod). split; reflexivity.
  - unfold logfuse_fsetattr_x, attr_step. cbv zeta.
    rewrite Hmode, (native_Fail _ _ _ Hchmod). split; reflexivity.
Qed.

(** C6.  A request for mode, uid and size in which the change of
    ownership fails with error [e] while the change of mode succeeds:
    the mode is set, the ownership call is made and fails, no call for
    the size is made, and the operation returns [-e].  The same holds
    of [logfuse_setattr_x] and of [logfuse_fsetattr_x]. *)
Theorem setattr_ownership_failure (path : string) (a : setattr_x)
    (fileInfo : fuse_file_info) (sysErr0 : Z) (w : World) (e : positive) :
  SETATTR_WANTS_MODE a = true ->
  SETATTR_WANTS_UID a = true ->
  SETATTR_WANTS_SIZE a = true ->
  let group := if SETATTR_WANTS_GID a then gid a else id_unchanged in
  let fd := to_int (fh fileInfo) in
  (w_sys w (w_trace w) (sys_lchmod path (mode a)) = Ok 0 ->
   w_sys w (w_trace w ++ [sys_lchmod path (mode a)])
         (sys_lchown path (uid a) group) = Fail e ->
   fst (logfuse_setattr_x path a sysErr0 w) = - Zpos e /\
   w_trace (snd (logfuse_setattr_x path a sysErr0 w))
   = w_trace w ++ [sys_lchmod path (mode a); sys_lchown path (uid a) group]) /\
  (w_sys w (w_trace w) (sys_fchmod fd (mode a)) = Ok 0 ->
   w_sys w (w_trace w ++ [sys_fchmod fd (mode a)])
         (sys_fchown fd (uid a) group) = Fail e ->
   fst (logfuse_fsetattr_x path a fileInfo sysErr0 w) = - Zpos e /\
   w_trace (snd (logfuse_fsetattr_x path a fileInfo sysErr0 w))
   = w_trace w ++ [sys_fchmod fd (mode a); sys_fchown fd (uid a) group]).
Proof.
  intros Hmode Huid Hsize group fd. split; intros Hchmod Hchown.
  - assert (E : logfuse_setattr_x path a sysErr0 w
                = setattr_done path (-1)
                    (set_errno (Zpos e)
                       (add_call (sys_lchown path (uid a) group)
                          (add_call (sys_lchmod path (mode a)) w)))).
    { unfold logfuse_setattr_x, attr_step. cbv zeta.
      rewrite Hmode, Huid, (native_Ok _ _ _ Hchmod). cbn [is_minus_one Z.eqb orb].
      fold group.
      rewrite (native_Fail _ (add_call (sys_lchmod path (mode a)) w) e Hchown).
      reflexivity. }
    rewrite E. cbn. rewrite <- app_assoc. split; reflexivity.
  - assert (E : logfuse_fsetattr_x path a fileInfo sysErr0 w
                = setattr_done path (-1)
                    (set_errno (Zpos e)
                       (add_call (sys_fchown fd (uid a) group)
                          (add_call (sys_fchmod fd (mode a)) w)))).
    { unfold logfuse_fsetattr_x, attr_step. cbv zeta.
      rewrite Hmode, Huid. fold fd.
      rewrite (native_Ok _ _ _ Hchmod). cbn [is_minus_one Z.eqb orb].
      fold group.
      rewrite (native_Fail _ (add_call (sys_fchmod fd (mode a)) w) e Hchown).
      reflexivity. }
    rewrite E. cbn. rewrite <- app_assoc. split; reflexivity.
Qed.

Lemma setattr_ownership_failure_witness :
  fst (logfuse_setattr_x "/f" (request 11) 0 (new_world chown_denied no_dirs)) = -1 /\
  w_trace (snd (logfuse_setattr_x "/f" (request 11) 0 (new_world chown_denied no_dirs)))
  = [sys_lchmod "/f" 420; sys_lchown "/f" 501 id_unchanged] /\
  fst (logfuse_fsetattr_x "/f" (request 11) fd3 0 (new_world chown_denied no_dirs)) = -1 /\
  w_trace (snd (logfuse_fsetattr_x "/f" (request 11) fd3 0 (new_world chown_denied no_dirs)))
  = [sys_fchmod 3 420; sys_fchown 3 501 id_unchanged].
Proof.
  destruct (setattr_ownership_failure "/f" (request 11) fd3 0
              (new_world chown_denied no_dirs) 1%positive) as (Hp & Hf);
    [reflexivity | reflexivity | reflexivity |].
  destruct Hp as (R1 & T1); [reflexivity | reflexivity |].
  destruct Hf as (R2 & T2); [reflexivity | reflexivity |].
  repeat split; assumption.
Defined.

(** C1.  The code at a request for size and access time in which the
    change of size fails with error 27 and the access time can be set:
    both functions go on to the access time after the failure and
    return 0, where the specification has them stop at the size and
    return -27. *)
Theorem setattr_size_failure_goes_on :
  logfuse_setattr_x "/f" (request 24) 0 (new_world truncate_fails no_dirs)
  = (0, {| w_sys := truncate_fails; w_opendir := no_dirs; w_errno := 27;
           w_trace := [sys_truncate "/f" 100;
                       sys_setattrlist "/f" ATTR_CMN_ACCTIME zero_time];
           w_log := [("logfuse_setattr_x(%s) err=%d"%string, [LStr "/f"; LInt 0])];
           w_heap := ∅ |}) /\
  logfuse_fsetattr_x "/f" (request 24) fd3 0 (new_world truncate_fails no_dirs)
  = (0, {| w_sys := truncate_fails; w_opendir := no_dirs; w_errno := 27;
           w_trace := [sys_ftruncate 3 100;
                       sys_fsetattrlist 3 ATTR_CMN_ACCTIME zero_time];
           w_log := [("logfuse_setattr_x(%s) err=%d"%string, [LStr "/f"; LInt 0])];
           w_heap := ∅ |}).
Proof. split; reflexivity. Qed.

(** C2.  The code at a request for size and access time in which every
    call succeeds: both functions leave after the size and return 0,
    and the access time is never set, where the specification has
    every selected field applied. *)
Theorem setattr_size_success_stops :
  logfuse_setattr_x "/f" (request 24) 0 (new_world all_ok no_dirs)
  = (0, {| w_sys := all_ok; w_opendir := no_dirs; w_errno := 0;
           w_trace := [sys_truncate "/f" 100];
           w_log := [("logfuse_setattr_x(%s) err=%d"%string, [LStr "/f"; LInt 0])];
           w_heap := ∅ |}) /\
  logfuse_fsetattr_x "/f" (request 24) fd3 0 (new_world all_ok no_dirs)
  = (0, {| w_sys := all_ok; w_opendir := no_dirs; w_errno := 0;
           w_trace := [sys_ftruncate 3 100];
           w_log := [("logfuse_setattr_x(%s) err=%d"%string, [LStr "/f"; LInt 0])];
           w_heap := ∅ |}).
Proof. split; reflexivity. Qed.

(** With no field selected the result is made from whatever [sysErr]
    held at entry. *)
Example setattr_nothing_selected :
  fst (logfuse_setattr_x "/f" (request 0) 7 (new_world all_ok no_dirs)) = 7 /\
  fst (logfuse_fsetattr_x "/f" (request 0) fd3 7 (new_world all_ok no_dirs)) = 7.
Proof. split; reflexivity. Qed.

(** ** Directories: the loop of [logfuse_readdir] *)

Lemma later_refl (w : World) : later w w.
Proof. repeat split. exists []. symmetry. apply app_nil_r. Qed.

Lemma later_trans (w1 w2 w3 : World) : later w1 w2 -> later w2 w3 -> later w1 w3.
Proof.
  intros (S1 & O1 & H1 & c1 & T1) (S2 & O2 & H2 & c2 & T2).
  repeat split; try congruence.
  exists (c1 ++ c2). rewrite T2, T1. symmetry. apply app_assoc.
Qed.

Lemma later_add_call (c : call) (w : World) : later w (add_call c w).
Proof. repeat split. exists [c]. reflexivity. Qed.

Lemma later_set_errno (e : Z) (w : World) : later w (set_errno e w).
Proof. repeat split. exists []. symmetry. apply app_nil_r. Qed.

Lemma later_log (fmt : string) (args : list logarg) (w : World) :
  later w (logfuse_log fmt args w).
Proof. repeat split. exists []. symmetry. apply app_nil_r. Qed.

Lemma readdir_later (d : DIR) (w : World) : later w (snd (readdir d w)).
Proof.
  unfold readdir. destruct (d_entries d !! d_pos d); [apply later_add_call |].
  destruct (d_tail d); [| apply later_add_call].
  eapply later_trans; [apply later_add_call | apply later_set_errno].
Qed.

Lemma length_offers_from (tell : nat -> Z) (es : list dirent) (pos : nat) :
  length (offers_from tell pos es) = length es.
Proof.
  revert pos. induction es as [| e es IH]; intros pos; simpl; [reflexivity |].
  now rewrite IH.
Qed.

Lemma entries_offers_from (tell : nat -> Z) (es : list dirent) (pos : nat) :
  item_entry <$> offers_from tell pos es = (fun e => (d_name e, entry_stat e)) <$> es.
Proof.
  revert pos. induction es as [| e es IH]; intros pos; simpl; [reflexivity |].
  now rewrite IH.
Qed.

Lemma length_offers (c : logfuse_dir_info) : length (offers c) = length (pending c).
Proof.
  unfold offers, pending. destruct (dir c) as [d |]; [| reflexivity].
  rewrite !length_app, length_offers_from. destruct (entry c); reflexivity.
Qed.

Lemma entries_offers (c : logfuse_dir_info) :
  item_entry <$> offers c = (fun e => (d_name e, entry_stat e)) <$> pending c.
Proof.
  unfold offers, pending. destruct (dir c) as [d |]; [| reflexivity].
  rewrite !fmap_app, entries_offers_from. destruct (entry c); reflexivity.
Qed.

(** One round of the loop when nothing is pending: the loop ends. *)
Lemma readdir_loop_end {B : Type} (fuel : nat) (path : string) (b : B)
    (filler : fuse_fill_dir_t B) (c : logfuse_dir_info) (d : DIR) (w : World) :
  dir c = Some d -> pending c = [] ->
  exists w',
    readdir_loop (S fuel) path b filler c w
    = Returns ({| dir := Some d; entry := None; offset := offset c |}, b, w') /\
    later w w' /\
    pending {| dir := Some d; entry := None; offset := offset c |} = [].
Proof.
  intros Hd Hp. unfold pending in Hp. rewrite Hd in Hp.
  destruct (entry c) as [e |] eqn:He; [discriminate |].
  simpl in Hp. cbn [readdir_loop]. rewrite Hd, He.
  assert (Hnone : d_entries d !! d_pos d = None).
  { destruct (d_entries d !! d_pos d) as [x |] eqn:Hx; [| reflexivity].
    rewrite (drop_S _ _ _ Hx) in Hp. discriminate. }
  pose proof (readdir_later d w) as Hl. unfold readdir in *.
  rewrite Hnone in *.
  destruct (d_tail d); eexists; (split; [reflexivity | split; [exact Hl | exact Hp]]).
Qed.

(** One round of the loop when [e] is the first pending entry: the
    callback is shown [e] with the token [t] of the position behind
    it; if it refuses, the loop ends with [e] cached and the offset as
    it was; otherwise the loop goes on behind [e] with offset [t]. *)
Lemma readdir_loop_round {B : Type} (fuel : nat) (path : string) (b : B)
    (filler : fuse_fill_dir_t B) (c : logfuse_dir_info) (d : DIR) (w : World)
    (e : dirent) (rest : list dirent) :
  dir c = Some d -> pending c = e :: rest ->
  exists n w1 t,
    let stay := {| dir := Some (at_pos n d); entry := Some e; offset := offset c |} in
    let go := {| dir := Some (at_pos n d); entry := None; offset := t |} in
    readdir_loop (S fuel) path b filler c w
    = (let '(b', full) := filler b (d_name e) (entry_stat e) t in
       if negb (full =? 0) then
         Returns (stay, b',
                  logfuse_log "logfuse_readdir(%s, %s) err=0"
                    [LStr path; LStr (d_name e)] w1)
       else readdir_loop fuel path b' filler go w1) /\
    later w w1 /\
    pending stay = e :: rest /\ pending go = rest /\
    offers c = dir_item_of e t :: offers go /\ offers stay = offers c.
Proof.
  intros Hd Hp. unfold pending in Hp. rewrite Hd in Hp.
  destruct (entry c) as [e0 |] eqn:He.
  - (* the entry is cached *)
    simpl in Hp. injection Hp as -> Hrest.
    exists (d_pos d), (add_call lib_telldir w), (d_tell d (d_pos d)).
    assert (Hat : at_pos (d_pos d) d = d) by (destruct d; reflexivity).
    rewrite Hat. cbn zeta. split; [| split; [apply later_add_call |]].
    + cbn [readdir_loop]. rewrite Hd, He. reflexivity.
    + unfold pending, offers. rewrite Hd, He. cbn [dir entry].
      rewrite Hrest. repeat split; reflexivity.
  - (* the entry is read from the stream *)
    simpl in Hp.
    destruct (d_entries d !! d_pos d) as [x |] eqn:Hx.
    2:{ apply lookup_ge_None in Hx. rewrite drop_ge in Hp by lia. discriminate. }
    rewrite (drop_S _ _ _ Hx) in Hp. injection Hp as -> Hrest.
    exists (S (d_pos d)), (add_call lib_telldir (add_call lib_readdir w)),
           (d_tell d (S (d_pos d))).
    cbn zeta. split; [| split].
    + cbn [readdir_loop]. rewrite Hd, He. unfold readdir. rewrite Hx. reflexivity.
    + eapply later_trans; apply later_add_call.
    + unfold pending, offers. rewrite Hd, He. cbn [dir entry at_pos d_pos d_entries d_tell].
      rewrite (drop_S _ _ _ Hx), Hrest. repeat split; reflexivity.
Qed.

Lemma pending_fuel (c : logfuse_dir_info) :
  (length (pending c) < readdir_fuel c)%nat.
Proof.
  unfold pending, readdir_fuel. destruct (dir c) as [d |]; [| simpl; lia].
  rewrite length_app, length_drop. destruct (entry c); simpl; lia.
Qed.

Lemma feed_cons {B : Type} (filler : fuse_fill_dir_t B) (b : B) (e : dirent) (t : Z)
    (items : list dir_item) :
  feed filler b (dir_item_of e t :: items)
  = (let '(b1, full) := filler b (d_name e) (entry_stat e) t in
     if negb (full =? 0) then (b1, 0%nat, true)
     else let '(b2, n, stopped) := feed filler b1 items in (b2, S n, stopped)).
Proof. reflexivity. Qed.

Lemma feed_stopped {B : Type} (filler : fuse_fill_dir_t B) (items : list dir_item) :
  forall (b b' : B) (n : nat),
    feed filler b items = (b', n, true) -> (n < length items)%nat.
Proof.
  induction items as [| [[name st] next] items IH]; intros b b' n H; cbn in H.
  - discriminate.
  - destruct (filler b name st next) as [b1 full].
    destruct (negb (full =? 0)).
    + injection H as _ <-. simpl. lia.
    + destruct (feed filler b1 items) as [[b2 m] s] eqn:E.
      injection H as _ <- ->. apply IH in E. simpl. lia.
Qed.

(** The buffer of the framework as a callback: it takes items while it
    has room and is shown one more. *)
Lemma feed_fill_dir (items : list dir_item) :
  forall b : dirbuf,
    feed fill_dir b items
    = ({| db_room := db_room b - length items;
          db_taken := db_taken b ++ take (db_room b) items;
          db_seen := db_seen b ++ take (S (db_room b)) items |},
       Nat.min (db_room b) (length items),
       (db_room b <? length items)%nat).
Proof.
  induction items as [| [[name st] next] items IH]; intros [room taken seen].
  - cbn. rewrite take_nil, !app_nil_r, Nat.sub_0_r, Nat.min_0_r. reflexivity.
  - cbn [feed]. unfold fill_dir at 1. cbn [db_room db_taken db_seen].
    destruct room as [| room]; cbn [Z.eqb negb].
    + cbn. rewrite app_nil_r. reflexivity.
    + rewrite IH. cbn [db_room db_taken db_seen length take Nat.sub Nat.min].
      rewrite <- !app_assoc. reflexivity.
Qed.

(** With fuel for the pending entries the loop comes to its end,
    whatever the callback does: the callback is handed the pending
    entries in order until it reports stop; the entry it stopped at
    stays cached; the offset is the one handed over with the last
    entry taken. *)
Lemma readdir_loop_feed {B : Type} (path : string) (filler : fuse_fill_dir_t B)
    (fuel : nat) :
  forall (c : logfuse_dir_info) (d : DIR) (b : B) (w : World),
    dir c = Some d -> (length (pending c) < fuel)%nat ->
    exists c' w',
      readdir_loop fuel path b filler c w
      = Returns (c', (feed filler b (offers c)).1.1, w') /\
      later w w' /\
      (exists m, dir c' = Some (at_pos m d)) /\
      pending c' = drop (feed filler b (offers c)).1.2 (pending c) /\
      offers c' = drop (feed filler b (offers c)).1.2 (offers c) /\
      entry c' = (if (feed filler b (offers c)).2
                  then pending c !! (feed filler b (offers c)).1.2 else None) /\
      offset c'
      = default (offset c)
          (last (item_offset <$> take (feed filler b (offers c)).1.2 (offers c))).
Proof.
  induction fuel as [| fuel IH]; intros c d b w Hd Hlen; [lia |].
  destruct (pending c) as [| e rest] eqn:Hp.
  - destruct (readdir_loop_end fuel path b filler c d w Hd Hp) as (w' & E & Hl & Hp').
    assert (Ho : offers c = []).
    { apply length_zero_iff_nil. now rewrite length_offers, Hp. }
    exists {| dir := Some d; entry := None; offset := offset c |}, w'.
    rewrite E, Ho, Hp'. cbn [feed fst snd]. rewrite drop_0.
    split; [reflexivity |]. split; [exact Hl |].
    split; [exists (d_pos d); destruct d; reflexivity |].
    repeat split.
    cbn in Hp'. unfold offers. cbn [dir entry app]. now rewrite Hp'.
  - destruct (readdir_loop_round fuel path b filler c d w e rest Hd Hp)
      as (n & w1 & t & E & Hl & Hstay & Hgo & Hoff & Hsame).
    cbn zeta in E, Hstay, Hgo, Hoff, Hsame. rewrite E. clear E.
    rewrite Hoff in *. rewrite feed_cons.
    destruct (filler b (d_name e) (entry_stat e) t) as [b1 full].
    destruct (negb (full =? 0)).
    + (* the callback reports stop: the entry stays *)
      cbn [fst snd]. rewrite take_0, !drop_0.
      eexists _, _. split; [reflexivity |].
      split; [eapply later_trans; [exact Hl | apply later_log] |].
      split; [exists n; reflexivity |].
      rewrite Hstay, Hsame. repeat split.
    + (* the callback takes the entry: the loop goes on *)
      destruct (IH {| dir := Some (at_pos n d); entry := None; offset := t |}
                  (at_pos n d) b1 w1 eq_refl)
        as (c' & w' & E' & Hl' & (m & Hm) & Hp' & Hof' & He' & Ho').
      { rewrite Hgo. simpl in Hlen. lia. }
      destruct (feed filler b1
                  (offers {| dir := Some (at_pos n d); entry := None; offset := t |}))
        as [[b2 k] stopped].
      cbn [fst snd] in *.
      exists c', w'. split; [exact E' |].
      split; [eapply later_trans; eassumption |].
      split; [exists m; exact Hm |].
      rewrite Hp', Hof', He', Ho', Hgo. cbn [drop lookup offset].
      repeat split.
      cbn [take]. rewrite fmap_cons, last_cons.
      destruct (last (item_offset <$> take k (offers _))); reflexivity.
Qed.

(** ** Directories: [logfuse_readdir] *)

Lemma readdir_seek_repositioned (theOffset : Z) (c : logfuse_dir_info) (d : DIR)
    (w : World) :
  dir c = Some d ->
  readdir_seek theOffset c w
  = Returns (repositioned theOffset c,
             if negb (theOffset =? offset c)
             then add_call (lib_seekdir theOffset) w else w) /\
  offset (repositioned theOffset c) = theOffset /\
  exists n, dir (repositioned theOffset c) = Some (at_pos n d).
Proof.
  intros Hd. unfold readdir_seek, repositioned. rewrite Hd.
  destruct (Z.eqb_spec theOffset (offset c)) as [Heq | Hne]; cbn [negb].
  - repeat split; [congruence |]. exists (d_pos d). rewrite Hd. destruct d; reflexivity.
  - repeat split. exists (d_seek d theOffset). reflexivity.
Qed.

(** [logfuse_readdir] on a handle that holds a cursor with an open
    stream: it returns 0; the callback was handed the entries before
    the cursor (after the move to [theOffset], if there was one) until
    it reported stop; the cursor is written back with the entry it
    stopped at. *)
Lemma logfuse_readdir_feed {B : Type} (path : string) (b : B)
    (filler : fuse_fill_dir_t B) (theOffset : Z)
    (fileInfo : fuse_file_info) (w : World) (p : positive)
    (c : logfuse_dir_info) (d : DIR) :
  logfuse_get_dir fileInfo = Some p ->
  w_heap w !! p = Some c ->
  dir c = Some d ->
  let cs := repositioned theOffset c in
  exists c' w',
    logfuse_readdir path b filler theOffset fileInfo w
    = Returns (0, (feed filler b (offers cs)).1.1, w') /\
    w_heap w' = <[p := c']> (w_heap w) /\
    (exists calls,
        w_trace w'
        = w_trace w
          ++ (if negb (theOffset =? offset c) then [lib_seekdir theOffset] else [])
          ++ calls) /\
    (exists n, dir c' = Some (at_pos n d)) /\
    pending c' = drop (feed filler b (offers cs)).1.2 (pending cs) /\
    offers c' = drop (feed filler b (offers cs)).1.2 (offers cs) /\
    entry c' = (if (feed filler b (offers cs)).2
                then pending cs !! (feed filler b (offers cs)).1.2 else None) /\
    offset c'
    = default theOffset
        (last (item_offset <$> take (feed filler b (offers cs)).1.2 (offers cs))).
Proof.
  intros Hp Hc Hd cs.
  destruct (readdir_seek_repositioned theOffset c d w Hd) as (Eseek & Hoff & n & Hn).
  fold cs in Eseek, Hoff, Hn.
  set (ws := if negb (theOffset =? offset c)
             then add_call (lib_seekdir theOffset) w else w) in *.
  destruct (readdir_loop_feed path filler (readdir_fuel cs) cs (at_pos n d) b ws Hn
              (pending_fuel cs))
    as (c' & w' & E & (HS & HO & HH & calls & HT) & (m & Hm) & Hpe & Hof & He & Ho).
  exists c', (set_heap (<[p := c']> (w_heap w')) w').
  split.
  { unfold logfuse_readdir. rewrite Hp, Hc, Eseek, E. reflexivity. }
  assert (Hws : w_heap ws = w_heap w /\
                w_trace ws = w_trace w ++
                  (if negb (theOffset =? offset c) then [lib_seekdir theOffset] else [])).
  { unfold ws. destruct (negb (theOffset =? offset c)); cbn; [tauto |].
    now rewrite app_nil_r. }
  destruct Hws as (Hh & Ht).
  split; [cbn; now rewrite HH, Hh |].
  split; [exists calls; cbn; now rewrite HT, Ht, <- app_assoc |].
  split; [exists m; exact Hm |].
  rewrite Hoff in Ho. repeat split; assumption.
Qed.

Lemma repositioned_same (c : logfuse_dir_info) : repositioned (offset c) c = c.
Proof. unfold repositioned. now rewrite Z.eqb_refl. Qed.

(** A cursor as [logfuse_opendir] stores it, read from offset 0, has
    the whole directory before it. *)
Lemma pending_at_start (d : DIR) :
  pending (repositioned 0 {| dir := Some (at_pos 0 d); entry := None; offset := 0 |})
  = d_entries d.
Proof. reflexivity. Qed.

(** What a cursor that was moved to [theOffset] shows first: the entry
    of the stream at the position of that token. *)
Lemma head_offers_repositioned (theOffset : Z) (c : logfuse_dir_info) (d : DIR) :
  dir c = Some d -> theOffset <> offset c ->
  head (offers (repositioned theOffset c))
  = (fun e => dir_item_of e (d_tell d (S (d_seek d theOffset))))
      <$> (d_entries d !! d_seek d theOffset).
Proof.
  intros Hd Hne. unfold repositioned. rewrite Hd.
  destruct (Z.eqb_spec theOffset (offset c)) as [| _]; [contradiction |].
  cbn [negb]. unfold offers. cbn [dir entry at_pos d_pos d_entries d_tell app].
  destruct (d_entries d !! d_seek d theOffset) as [e |] eqn:He.
  - rewrite (drop_S _ _ _ He). reflexivity.
  - apply lookup_ge_None in He. rewrite drop_ge by lia. reflexivity.
Qed.

Section OpenCursor.

(** A request on a handle that holds a cursor with an open stream. *)
Variables (path : string) (fileInfo : fuse_file_info) (w : World).
Variables (p : positive) (c : logfuse_dir_info) (d : DIR).
Hypothesis Hp : logfuse_get_dir fileInfo = Some p.
Hypothesis Hc : w_heap w !! p = Some c.
Hypothesis Hd : dir c = Some d.

(** C10.  [logfuse_readdir] returns 0 for every requested offset, every
    callback and every buffer, on a handle that holds a cursor with an
    open stream: the loop ends, and the end of the directory, a
    callback that stops the read and a failing read of the stream all
    give 0. *)
Theorem readdir_returns_zero {B : Type} (buffer : B)
    (filler : fuse_fill_dir_t B) (theOffset : Z) :
  exists buffer' w',
    logfuse_readdir path buffer filler theOffset fileInfo w
    = Returns (0, buffer', w').
Proof using Hp Hc Hd.
  destruct (logfuse_readdir_feed path buffer filler theOffset fileInfo w p c d Hp Hc Hd)
    as (c' & w' & E & _).
  eexists _, w'. exact E.
Qed.

(** C4.  Resuming a read.  Let [ahead] be the entries a read from
    [theOffset] has before it (all entries of the directory for a
    cursor at the start) and [items] what the callback is shown for
    them.  When the first callback takes [k] of them and reports stop
    at the next one, [e]: the read returns 0, [e] stays cached in the
    cursor, and the offset of the cursor is the one that was handed
    over with the [k]-th entry (the requested one if [k] is 0), so not
    past [e].  A second read from that offset, with any callback, hands
    that callback [e] and the entries behind it: the items from [k]
    on, in their order, none of the first [k] again and none left
    out. *)
Theorem readdir_resume {B1 B2 : Type}
    (filler1 : fuse_fill_dir_t B1) (buffer1 buffer1' : B1)
    (filler2 : fuse_fill_dir_t B2) (buffer2 : B2)
    (theOffset : Z) (k : nat) :
  let ahead := pending (repositioned theOffset c) in
  let items := offers (repositioned theOffset c) in
  feed filler1 buffer1 items = (buffer1', k, true) ->
  exists w1 c1 e,
    logfuse_readdir path buffer1 filler1 theOffset fileInfo w
    = Returns (0, buffer1', w1) /\
    item_entry <$> items = (fun e => (d_name e, entry_stat e)) <$> ahead /\
    ahead !! k = Some e /\
    w_heap w1 !! p = Some c1 /\
    entry c1 = Some e /\
    offset c1 = default theOffset (last (item_offset <$> take k items)) /\
    length (drop k items) = (length ahead - k)%nat /\
    exists w2,
      logfuse_readdir path buffer2 filler2 (offset c1) fileInfo w1
      = Returns (0, (feed filler2 buffer2 (drop k items)).1.1, w2).
Proof using Hp Hc Hd.
  intros ahead items Hfeed.
  destruct (logfuse_readdir_feed path buffer1 filler1 theOffset fileInfo w p c d Hp Hc Hd)
    as (c1 & w1 & E1 & Hheap & _ & (n & Hn) & Hpe & Hof & He & Ho).
  cbn zeta in *. fold ahead in Hpe, He. fold items in E1, Hpe, Hof, He, Ho.
  rewrite Hfeed in *. cbn [fst snd] in *.
  assert (Hk : (k < length ahead)%nat).
  { unfold ahead. rewrite <- length_offers. fold items.
    exact (feed_stopped filler1 items buffer1 buffer1' k Hfeed). }
  destruct (lookup_lt_is_Some_2 ahead k Hk) as [e Hek].
  assert (Hh1 : w_heap w1 !! p = Some c1) by (rewrite Hheap; apply lookup_insert_eq).
  exists w1, c1, e.
  split; [exact E1 |]. split; [apply entries_offers |].
  split; [exact Hek |]. split; [exact Hh1 |].
  split; [congruence |]. split; [exact Ho |].
  split; [unfold items, ahead; now rewrite !length_drop, length_offers |].
  destruct (logfuse_readdir_feed path buffer2 filler2 (offset c1) fileInfo w1 p c1
              (at_pos n d) Hp Hh1 Hn)
    as (c2 & w2 & E2 & _).
  cbn zeta in E2. rewrite repositioned_same, Hof in E2.
  exists w2. exact E2.
Qed.

(** C5.  Repositioning.  A read from [theOffset] in which the callback
    takes nothing leaves the cursor at [theOffset], and a second read
    from the same [theOffset] hands its callback the same items as the
    first read handed to its callback, beginning with the same entry.
    And a read from a [theOffset] other than the offset of the cursor
    calls [seekdir] with it before any other call, hands over first the
    entry of the stream at that position, whatever entry was cached,
    and counts the offset of the cursor from [theOffset]. *)
Theorem readdir_reposition {B1 B2 : Type}
    (filler1 : fuse_fill_dir_t B1) (buffer1 : B1)
    (filler2 : fuse_fill_dir_t B2) (buffer2 : B2) (theOffset : Z) :
  let items := offers (repositioned theOffset c) in
  let taken := (feed filler1 buffer1 items).1.2 in
  (taken = 0%nat ->
   exists w1 c1,
     logfuse_readdir path buffer1 filler1 theOffset fileInfo w
     = Returns (0, (feed filler1 buffer1 items).1.1, w1) /\
     w_heap w1 !! p = Some c1 /\ offset c1 = theOffset /\
     exists w2,
       logfuse_readdir path buffer2 filler2 theOffset fileInfo w1
       = Returns (0, (feed filler2 buffer2 items).1.1, w2)) /\
  (theOffset <> offset c ->
   head items
   = (fun e => dir_item_of e (d_tell d (S (d_seek d theOffset))))
       <$> (d_entries d !! d_seek d theOffset) /\
   exists w' c',
     logfuse_readdir path buffer1 filler1 theOffset fileInfo w
     = Returns (0, (feed filler1 buffer1 items).1.1, w') /\
     (exists calls, w_trace w' = w_trace w ++ lib_seekdir theOffset :: calls) /\
     w_heap w' !! p = Some c' /\
     offset c' = default theOffset (last (item_offset <$> take taken items))).
Proof using Hp Hc Hd.
  intros items taken.
  destruct (logfuse_readdir_feed path buffer1 filler1 theOffset fileInfo w p c d Hp Hc Hd)
    as (c1 & w1 & E1 & Hheap & (calls & Ht) & (n & Hn) & _ & Hof & _ & Ho).
  cbn zeta in *. fold items in E1, Hof, Ho. fold taken in Hof, Ho.
  assert (Hh1 : w_heap w1 !! p = Some c1) by (rewrite Hheap; apply lookup_insert_eq).
  split.
  - intros Hnone. rewrite Hnone, ?take_0, ?drop_0 in *. cbn in Ho.
    exists w1, c1. split; [exact E1 |]. split; [exact Hh1 |]. split; [exact Ho |].
    destruct (logfuse_readdir_feed path buffer2 filler2 theOffset fileInfo w1 p c1
                (at_pos n d) Hp Hh1 Hn)
      as (c2 & w2 & E2 & _).
    cbn zeta in E2. rewrite <- Ho, repositioned_same, Ho, Hof in E2.
    exists w2. exact E2.
  - intros Hne. split; [exact (head_offers_repositioned theOffset c d Hd Hne) |].
    exists w1, c1. split; [exact E1 |].
    destruct (Z.eqb_spec theOffset (offset c)) as [| _]; [contradiction |].
    split; [exists calls; exact Ht |]. split; [exact Hh1 | exact Ho].
Qed.

End OpenCursor.

Lemma readdir_returns_zero_witness :
  logfuse_get_dir abc_handle = Some 1%positive /\
  w_heap abc_opened !! 1%positive
  = Some {| dir := Some abc_dir; entry := None; offset := 0 |} /\
  exists buffer' w',
    logfuse_readdir "/d" (empty_buf 1) fill_dir 7 abc_handle abc_opened
    = Returns (0, buffer', w').
Proof.
  split; [reflexivity |]. split; [reflexivity |].
  apply (readdir_returns_zero "/d" abc_handle abc_opened 1%positive
           {| dir := Some abc_dir; entry := None; offset := 0 |} abc_dir
           eq_refl eq_refl eq_refl (empty_buf 1) fill_dir 7).
Defined.

(** A stream that fails after its first entry: the read hands over
    the entry, leaves the error number in [errno] and returns 0. *)
Example readdir_failing_stream :
  exists b w',
    logfuse_readdir "/d" (empty_buf 5) fill_dir 0 broken_handle broken_opened
    = Returns (0, b, w') /\
    fst <$> (item_entry <$> db_taken b) = ["a"%string] /\
    w_errno broken_opened = 0 /\ w_errno w' = 5.
Proof. eexists _, _. repeat split. Qed.

(** The directory "a", "b", "c" read into a buffer with room for one
    entry, then from the offset that came with "a" into a buffer with
    room for five. *)
Lemma readdir_resume_witness :
  exists b1 w1 c1,
    logfuse_readdir "/d" (empty_buf 1) fill_dir 0 abc_handle abc_opened
    = Returns (0, b1, w1) /\
    fst <$> (item_entry <$> db_taken b1) = ["a"%string] /\
    item_offset <$> db_taken b1 = [1] /\
    w_heap w1 !! 1%positive = Some c1 /\
    entry c1 = Some {| d_ino := 12; d_type := 8; d_name := "b" |} /\
    offset c1 = 1 /\
    exists b2 w2,
      logfuse_readdir "/d" (empty_buf 5) fill_dir 1 abc_handle w1
      = Returns (0, b2, w2) /\
      fst <$> (item_entry <$> db_taken b2) = ["b"%string; "c"%string].
Proof.
  destruct (readdir_resume "/d" abc_handle abc_opened 1%positive
              {| dir := Some abc_dir; entry := None; offset := 0 |} abc_dir
              eq_refl eq_refl eq_refl
              fill_dir (empty_buf 1)
              {| db_room := 0;
                 db_taken := [("a"%string, {| st_ino := 11; st_mode := 32768 |}, 1)];
                 db_seen := [("a"%string, {| st_ino := 11; st_mode := 32768 |}, 1);
                             ("b"%string, {| st_ino := 12; st_mode := 32768 |}, 2)] |}
              fill_dir (empty_buf 5) 0 1%nat eq_refl)
    as (w1 & c1 & e & E1 & _ & Hek & Hh & He & Ho & _ & w2 & E2).
  cbn in Ho. rewrite Ho in E2.
  eexists _, w1, c1. split; [exact E1 |].
  split; [reflexivity |]. split; [reflexivity |]. split; [exact Hh |].
  split; [rewrite He, <- Hek; reflexivity |]. split; [exact Ho |].
  eexists _, w2. split; [exact E2 | reflexivity].
Defined.

(** The same directory read from offset 2 into a full buffer, twice. *)
Lemma readdir_reposition_witness :
  exists b1 w1 c1,
    logfuse_readdir "/d" (empty_buf 0) fill_dir 2 abc_handle abc_opened
    = Returns (0, b1, w1) /\
    fst <$> (item_entry <$> db_seen b1) = ["c"%string] /\
    w_heap w1 !! 1%positive = Some c1 /\
    offset c1 = 2 /\
    (exists calls, w_trace w1 = w_trace abc_opened ++ lib_seekdir 2 :: calls) /\
    exists b2 w2,
      logfuse_readdir "/d" (empty_buf 0) fill_dir 2 abc_handle w1
      = Returns (0, b2, w2) /\
      db_seen b2 = db_seen b1.
Proof.
  destruct (readdir_reposition "/d" abc_handle abc_opened 1%positive
              {| dir := Some abc_dir; entry := None; offset := 0 |} abc_dir
              eq_refl eq_refl eq_refl
              fill_dir (empty_buf 0) fill_dir (empty_buf 0) 2)
    as (Hsame & Hmoved).
  destruct Hsame as (w1 & c1 & E1 & Hh & Ho & w2 & E2); [reflexivity |].
  destruct Hmoved as (_ & w' & c' & E & Ht & _); [discriminate |].
  rewrite E1 in E. injection E as <-.
  eexists _, w1, c1. split; [exact E1 |].
  split; [reflexivity |]. split; [exact Hh |]. split; [exact Ho |].
  split; [exact Ht |].
  eexists _, w2. split; [exact E2 | reflexivity].
Defined.

(** ** Directories: [logfuse_opendir] *)

(** C7.  [logfuse_opendir].  When [opendir] gives a stream and the
    cursor can be allocated, the operation returns 0 and the handle
    points to a new cursor (at an address that was not in use) with
    that stream, no cached entry and offset 0.  When [opendir] fails
    with error [e] the operation returns [-e]; nothing is allocated and
    the handle is as it was.  When [opendir] gives a stream and the
    allocation fails, the operation returns [-ENOMEM], the stream is
    closed again, and the handle is as it was. *)
Theorem opendir_outcomes (path : string) (fileInfo : fuse_file_info) (w : World) :
  (forall d r,
      w_opendir w (w_trace w) path = inl d ->
      w_sys w (w_trace w ++ [lib_opendir path]) lib_malloc = Ok r ->
      exists p w',
        logfuse_opendir path fileInfo w
        = (0, {| flags := flags fileInfo; fh := Zpos p |}, w') /\
        logfuse_get_dir {| flags := flags fileInfo; fh := Zpos p |} = Some p /\
        w_heap w !! p = None /\
        w_heap w'
        = <[p := {| dir := Some (at_pos 0 d); entry := None; offset := 0 |}]> (w_heap w) /\
        w_trace w' = w_trace w ++ [lib_opendir path; lib_malloc]) /\
  (forall e,
      w_opendir w (w_trace w) path = inr e ->
      exists w',
        logfuse_opendir path fileInfo w = (- Zpos e, fileInfo, w') /\
        w_heap w' = w_heap w /\
        w_trace w' = w_trace w ++ [lib_opendir path]) /\
  (forall d e,
      w_opendir w (w_trace w) path = inl d ->
      w_sys w (w_trace w ++ [lib_opendir path]) lib_malloc = Fail e ->
      exists w',
        logfuse_opendir path fileInfo w = (- ENOMEM, fileInfo, w') /\
        w_heap w' = w_heap w /\
        w_trace w'
        = w_trace w ++ [lib_opendir path; lib_malloc; lib_closedir (Some (at_pos 0 d))]).
Proof.
  split; [| split].
  - intros d r Hopen Hmalloc.
    exists (fresh (dom (w_heap w))). eexists.
    split.
    { unfold logfuse_opendir, opendir. rewrite Hopen. cbn [Z.eqb negb].
      unfold malloc. cbn [logfuse_log add_call w_sys w_trace w_heap].
      rewrite Hmalloc. reflexivity. }
    split; [reflexivity |].
    split; [apply not_elem_of_dom, is_fresh |].
    split; [reflexivity |].
    cbn. now rewrite <- app_assoc.
  - intros e Hopen. eexists. split.
    { unfold logfuse_opendir, opendir. rewrite Hopen. reflexivity. }
    split; reflexivity.
  - intros d e Hopen Hmalloc. eexists. split.
    { unfold logfuse_opendir, opendir. rewrite Hopen. cbn [Z.eqb negb].
      unfold malloc. cbn [logfuse_log add_call w_sys w_trace w_heap].
      rewrite Hmalloc. reflexivity. }
    split; [reflexivity |].
    cbn. now rewrite <- !app_assoc.
Qed.

Lemma opendir_outcomes_witness :
  fst (logfuse_opendir "/d" fd3 abc_world) = (0, {| flags := 0; fh := 1 |}) /\
  w_heap (snd (logfuse_opendir "/d" fd3 abc_world)) !! 1%positive
  = Some {| dir := Some abc_dir; entry := None; offset := 0 |} /\
  fst (logfuse_opendir "/x" fd3 abc_world) = (-2, fd3) /\
  fst (logfuse_opendir "/d" fd3 abc_world_oom) = (- ENOMEM, fd3) /\
  w_trace (snd (logfuse_opendir "/d" fd3 abc_world_oom))
  = [lib_opendir "/d"; lib_malloc; lib_closedir (Some abc_dir)].
Proof.
  destruct (opendir_outcomes "/d" fd3 abc_world) as (Hok & _ & _).
  destruct (opendir_outcomes "/x" fd3 abc_world) as (_ & Hfail & _).
  destruct (opendir_outcomes "/d" fd3 abc_world_oom) as (_ & _ & Hoom).
  destruct (Hok abc_dir 0) as (p & w1 & E1 & _ & _ & Hh & _); [reflexivity | reflexivity |].
  destruct (Hfail 2%positive) as (w2 & E2 & _); [reflexivity |].
  destruct (Hoom abc_dir 12%positive) as (w3 & E3 & _ & Ht); [reflexivity | reflexivity |].
  rewrite E2, E3. cbn [fst snd].
  split; [reflexivity |]. split; [reflexivity |]. split; [reflexivity |].
  split; [reflexivity | exact Ht].
Defined.

(** * Properties of the further code *)

(** ** Directories: open, read, release *)

Lemma logfuse_opendir_stores (path : string) (fileInfo : fuse_file_info) (w : World)
    (d : DIR) (r : Z) :
  w_opendir w (w_trace w) path = inl d ->
  w_sys w (w_trace w ++ [lib_opendir path]) lib_malloc = Ok r ->
  exists p w',
    logfuse_opendir path fileInfo w
    = (0, {| flags := flags fileInfo; fh := Zpos p |}, w') /\
    w_heap w !! p = None /\
    w_heap w'
    = <[p := {| dir := Some (at_pos 0 d); entry := None; offset := 0 |}]> (w_heap w) /\
    w_trace w' = w_trace w ++ [lib_opendir path; lib_malloc].
Proof.
  intros Hopen Hmalloc.
  exists (fresh (dom (w_heap w))). eexists. split.
  { unfold logfuse_opendir, opendir. rewrite Hopen. cbn [Z.eqb negb].
    unfold malloc. cbn [logfuse_log add_call w_sys w_trace w_heap].
    rewrite Hmalloc. reflexivity. }
  split; [apply not_elem_of_dom, is_fresh |].
  split; [reflexivity |].
  cbn. now rewrite <- app_assoc.
Qed.

(** X1.  A directory that was just opened, read from offset 0: the
    callback is handed every entry of the directory, in the order of
    the stream, each with the token of the position behind it, until it
    reports stop; the read returns 0. *)
Theorem opendir_then_read_all {B : Type} (path : string) (fileInfo : fuse_file_info)
    (w : World) (d : DIR) (r : Z) (buffer : B) (filler : fuse_fill_dir_t B) :
  w_opendir w (w_trace w) path = inl d ->
  w_sys w (w_trace w ++ [lib_opendir path]) lib_malloc = Ok r ->
  let opened := logfuse_opendir path fileInfo w in
  let items := offers_from (d_tell d) 0 (d_entries d) in
  opened.1.1 = 0 /\
  item_entry <$> items = (fun e => (d_name e, entry_stat e)) <$> d_entries d /\
  exists w2,
    logfuse_readdir path buffer filler 0 opened.1.2 opened.2
    = Returns (0, (feed filler buffer items).1.1, w2).
Proof.
  intros Hopen Hmalloc opened items.
  destruct (logfuse_opendir_stores path fileInfo w d r Hopen Hmalloc)
    as (p & w1 & E & _ & Hheap & _).
  unfold opened. rewrite E. cbn [fst snd].
  split; [reflexivity |]. split; [apply entries_offers_from |].
  destruct (logfuse_readdir_feed path buffer filler 0
              {| flags := flags fileInfo; fh := Zpos p |} w1 p
              {| dir := Some (at_pos 0 d); entry := None; offset := 0 |} (at_pos 0 d))
    as (c' & w2 & E2 & _).
  - reflexivity.
  - rewrite Hheap. apply lookup_insert_eq.
  - reflexivity.
  - exists w2. exact E2.
Qed.

Lemma opendir_then_read_all_witness :
  exists b w2,
    logfuse_readdir "/d" (empty_buf 5) fill_dir 0 abc_handle abc_opened
    = Returns (0, b, w2) /\
    fst <$> (item_entry <$> db_taken b) = ["a"%string; "b"%string; "c"%string] /\
    item_offset <$> db_taken b = [1; 2; 3].
Proof.
  destruct (opendir_then_read_all "/d" fd3 abc_world abc_dir 0 (empty_buf 5) fill_dir
              eq_refl eq_refl) as (_ & _ & w2 & E).
  eexists _, w2. split; [exact E |]. split; reflexivity.
Defined.

Lemma tokens_round_trip_at_pos (n : nat) (d : DIR) :
  tokens_round_trip d -> tokens_round_trip (at_pos n d).
Proof. intros H i. exact (H i). Qed.

(** The loop keeps the cursor in agreement with its stream. *)
Lemma readdir_loop_cursor_ok {B : Type} (path : string) (filler : fuse_fill_dir_t B)
    (fuel : nat) :
  forall (c : logfuse_dir_info) (b : B) (w : World) c' b' w',
    cursor_ok c ->
    readdir_loop fuel path b filler c w = Returns (c', b', w') ->
    cursor_ok c'.
Proof.
  induction fuel as [| fuel IH]; intros c b w c' b' w' Hok H; [discriminate |].
  destruct Hok as (d & Hd & Hlaw & Hpos).
  cbn [readdir_loop] in H. rewrite Hd in H.
  destruct (entry c) as [e |] eqn:He.
  - (* the entry is cached *)
    destruct Hpos as (Hpos & Hat). unfold telldir in H.
    destruct (filler b (d_name e) _ (d_tell d (d_pos d))) as [b1 full].
    destruct (negb (full =? 0)).
    + injection H as <- _ _. exists d. cbn. auto.
    + apply IH in H; [exact H |]. exists d. cbn.
      split; [reflexivity |]. split; [exact Hlaw |]. symmetry. apply Hlaw.
  - (* the entry is read from the stream *)
    unfold readdir in H.
    destruct (d_entries d !! d_pos d) as [x |] eqn:Hx.
    + unfold telldir in H. cbn [at_pos d_pos d_tell] in H.
      destruct (filler b (d_name x) _ (d_tell d (S (d_pos d)))) as [b1 full].
      destruct (negb (full =? 0)).
      * injection H as <- _ _. exists (at_pos (S (d_pos d)) d). cbn.
        split; [reflexivity |]. split; [exact Hlaw |].
        rewrite <- Hpos. auto.
      * apply IH in H; [exact H |]. exists (at_pos (S (d_pos d)) d). cbn.
        split; [reflexivity |]. split; [exact Hlaw |]. symmetry. apply Hlaw.
    + assert (E : c' = {| dir := Some d; entry := None; offset := offset c |}).
      { destruct (d_tail d); now injection H as <- _ _. }
      subst c'. exists d. cbn. auto.
Qed.

Lemma repositioned_cursor_ok (theOffset : Z) (c : logfuse_dir_info) :
  cursor_ok c -> cursor_ok (repositioned theOffset c).
Proof.
  intros (d & Hd & Hlaw & Hpos). unfold repositioned.
  destruct (negb (theOffset =? offset c)); [| exists d; auto].
  rewrite Hd. exists (at_pos (d_seek d theOffset) d). cbn. auto.
Qed.

(** What a cursor in agreement with its stream has before it, after
    the move to [theOffset]: the entries of the stream from the
    position of that token on. *)
Lemma offers_cursor_ok (theOffset : Z) (c : logfuse_dir_info) (d : DIR) :
  dir c = Some d -> cursor_ok c ->
  offers (repositioned theOffset c)
  = offers_from (d_tell d) (d_seek d theOffset)
      (drop (d_seek d theOffset) (d_entries d)).
Proof.
  intros Hd (d' & Hd' & Hlaw & Hpos).
  assert (d' = d) by congruence. subst d'.
  unfold repositioned. rewrite Hd.
  destruct (Z.eqb_spec theOffset (offset c)) as [-> | Hne]; cbn [negb].
  - unfold offers. rewrite Hd. destruct (entry c) as [e |].
    + destruct Hpos as (Hpos & Hat). rewrite (drop_S _ _ _ Hat), Hpos. reflexivity.
    + rewrite Hpos. reflexivity.
  - reflexivity.
Qed.

(** X2.  The agreement of cursor and stream is set up by
    [logfuse_opendir] and kept by [logfuse_readdir].  For a stream whose
    [seekdir] takes the tokens of [telldir] back to their positions and
    the token 0 to the start: the cursor that [logfuse_opendir] stores
    agrees with its stream; and a read on a handle whose cursor agrees
    with its stream, from any offset and with any callback, returns 0
    and leaves a cursor that agrees with its stream. *)
Theorem cursor_ok_kept {B : Type} (path : string) (fileInfo : fuse_file_info)
    (w : World) (buffer : B) (filler : fuse_fill_dir_t B) (theOffset : Z) :
  (forall d r,
      w_opendir w (w_trace w) path = inl d ->
      w_sys w (w_trace w ++ [lib_opendir path]) lib_malloc = Ok r ->
      tokens_round_trip d -> d_seek d 0 = 0%nat ->
      exists p c,
        logfuse_get_dir (logfuse_opendir path fileInfo w).1.2 = Some p /\
        w_heap (logfuse_opendir path fileInfo w).2 !! p = Some c /\
        cursor_ok c) /\
  (forall p c,
      logfuse_get_dir fileInfo = Some p ->
      w_heap w !! p = Some c ->
      cursor_ok c ->
      exists b' w' c',
        logfuse_readdir path buffer filler theOffset fileInfo w = Returns (0, b', w') /\
        w_heap w' !! p = Some c' /\
        cursor_ok c').
Proof.
  split.
  - intros d r Hopen Hmalloc Hlaw Hzero.
    destruct (logfuse_opendir_stores path fileInfo w d r Hopen Hmalloc)
      as (p & w1 & E & _ & Hheap & _).
    rewrite E. cbn [fst snd].
    exists p, {| dir := Some (at_pos 0 d); entry := None; offset := 0 |}.
    split; [reflexivity |]. split; [rewrite Hheap; apply lookup_insert_eq |].
    exists (at_pos 0 d). cbn. rewrite Hzero. auto.
  - intros p c Hp Hc Hok.
    destruct Hok as (d & Hd & Hrest).
    assert (Hok : cursor_ok c) by (exists d; auto).
    destruct (readdir_seek_repositioned theOffset c d w Hd) as (Eseek & _ & n & Hn).
    destruct (readdir_loop_feed path filler (readdir_fuel (repositioned theOffset c))
                (repositioned theOffset c) (at_pos n d) buffer
                (if negb (theOffset =? offset c)
                 then add_call (lib_seekdir theOffset) w else w)
                Hn (pending_fuel _))
      as (c' & w' & E & _).
    pose proof (readdir_loop_cursor_ok path filler _ _ _ _ _ _ _
                  (repositioned_cursor_ok theOffset c Hok) E) as Hok'.
    eexists _, _, c'. split.
    { unfold logfuse_readdir. rewrite Hp, Hc, Eseek, E. reflexivity. }
    split; [cbn; apply lookup_insert_eq | exact Hok'].
Qed.

Lemma cursor_ok_kept_witness :
  (exists p c,
      logfuse_get_dir abc_handle = Some p /\
      w_heap abc_opened !! p = Some c /\ cursor_ok c) /\
  (exists b' w' c',
      logfuse_readdir "/d" (empty_buf 1) fill_dir 2 abc_handle abc_opened
      = Returns (0, b', w') /\
      w_heap w' !! 1%positive = Some c' /\ cursor_ok c').
Proof.
  assert (Hlaw : tokens_round_trip abc_dir) by (intros i; apply Nat2Z.id).
  destruct (cursor_ok_kept "/d" fd3 abc_world (empty_buf 1) fill_dir 2) as (Hopen & _).
  destruct (cursor_ok_kept "/d" abc_handle abc_opened (empty_buf 1) fill_dir 2)
    as (_ & Hread).
  destruct (Hopen abc_dir 0 eq_refl eq_refl Hlaw eq_refl) as (p & c & Hp & Hc & Hok).
  split; [exists p, c; auto |].
  injection Hp as <-.
  exact (Hread 1%positive c eq_refl Hc Hok).
Defined.

(** X3.  On a handle whose cursor agrees with its stream, what a read
    hands over depends on the requested offset alone, not on the reads
    before: the callback is handed the entries of the stream from the
    position of the token [theOffset] on, each with the token of the
    position behind it, until it reports stop. *)
Theorem readdir_from_offset {B : Type} (path : string) (buffer : B)
    (filler : fuse_fill_dir_t B) (theOffset : Z) (fileInfo : fuse_file_info)
    (w : World) (p : positive) (c : logfuse_dir_info) (d : DIR) :
  logfuse_get_dir fileInfo = Some p ->
  w_heap w !! p = Some c ->
  dir c = Some d ->
  cursor_ok c ->
  let start := d_seek d theOffset in
  let items := offers_from (d_tell d) start (drop start (d_entries d)) in
  item_entry <$> items
  = (fun e => (d_name e, entry_stat e)) <$> drop start (d_entries d) /\
  exists w',
    logfuse_readdir path buffer filler theOffset fileInfo w
    = Returns (0, (feed filler buffer items).1.1, w').
Proof.
  intros Hp Hc Hd Hok start items.
  split; [apply entries_offers_from |].
  destruct (logfuse_readdir_feed path buffer filler theOffset fileInfo w p c d Hp Hc Hd)
    as (c' & w' & E & _).
  cbn zeta in E. rewrite (offers_cursor_ok theOffset c d Hd Hok) in E.
  exists w'. exact E.
Qed.

Lemma readdir_from_offset_witness :
  exists b w',
    logfuse_readdir "/d" (empty_buf 5) fill_dir 2 abc_handle abc_opened
    = Returns (0, b, w') /\
    fst <$> (item_entry <$> db_taken b) = ["c"%string].
Proof.
  assert (Hok : cursor_ok {| dir := Some abc_dir; entry := None; offset := 0 |}).
  { exists abc_dir. split; [reflexivity |]. split; [| reflexivity].
    intros i. apply Nat2Z.id. }
  destruct (readdir_from_offset "/d" (empty_buf 5) fill_dir 2 abc_handle abc_opened
              1%positive {| dir := Some abc_dir; entry := None; offset := 0 |} abc_dir
              eq_refl eq_refl eq_refl Hok) as (_ & w' & E).
  eexists _, w'. split; [exact E | reflexivity].
Defined.

Lemma take_min_length {A : Type} (n : nat) (l : list A) :
  take (Nat.min n (length l)) l = take n l.
Proof.
  destruct (Nat.le_gt_cases n (length l)) as [H | H].
  - now rewrite Nat.min_l.
  - rewrite Nat.min_r, !take_ge by lia. reflexivity.
Qed.

Lemma drop_min_length {A : Type} (n : nat) (l : list A) :
  drop (Nat.min n (length l)) l = drop n l.
Proof.
  destruct (Nat.le_gt_cases n (length l)) as [H | H].
  - now rewrite Nat.min_l.
  - rewrite Nat.min_r, !drop_ge by lia. reflexivity.
Qed.

(** [logfuse_readdir] into a buffer of the framework with room for [n]
    entries. *)
Lemma logfuse_readdir_buffer (path : string) (n : nat) (theOffset : Z)
    (fileInfo : fuse_file_info) (w : World) (p : positive)
    (c : logfuse_dir_info) (d : DIR) :
  logfuse_get_dir fileInfo = Some p ->
  w_heap w !! p = Some c ->
  dir c = Some d ->
  let ahead := pending (repositioned theOffset c) in
  let items := offers (repositioned theOffset c) in
  exists b' c' w',
    logfuse_readdir path (empty_buf n) fill_dir theOffset fileInfo w
    = Returns (0, b', w') /\
    db_taken b' = take n items /\
    w_heap w' !! p = Some c' /\
    (exists k, dir c' = Some (at_pos k d)) /\
    pending c' = drop n ahead /\
    offers c' = drop n items /\
    entry c' = ahead !! n /\
    offset c' = default theOffset (last (item_offset <$> take n items)).
Proof.
  intros Hp Hc Hd ahead items.
  destruct (logfuse_readdir_feed path (empty_buf n) fill_dir theOffset fileInfo w p c d
              Hp Hc Hd)
    as (c' & w' & E & Hheap & _ & Hdir & Hpe & Hof & He & Ho).
  cbn zeta in *. fold ahead in Hpe, He. fold items in E, Hpe, Hof, He, Ho.
  rewrite feed_fill_dir in *. cbn [fst snd empty_buf db_room db_taken db_seen] in *.
  assert (Hlen : length items = length ahead) by apply length_offers.
  eexists _, c', w'. split; [exact E |]. cbn [db_taken app].
  split; [reflexivity |].
  split; [rewrite Hheap; apply lookup_insert_eq |].
  split; [exact Hdir |].
  split; [now rewrite Hpe, Hlen, drop_min_length |].
  split; [now rewrite Hof, drop_min_length |].
  split.
  - rewrite He. destruct (Nat.ltb_spec n (length items)) as [H | H].
    + now rewrite Nat.min_l by lia.
    + symmetry. apply lookup_ge_None. lia.
  - now rewrite Ho, take_min_length.
Qed.

(** X4.  Paging.  A read into a buffer with room for [n] entries,
    followed by a read from the offset it left into a buffer with room
    for [m], hands over the same entries in the same order as one read
    into a buffer with room for [n + m], and leaves the cursor with the
    same entries before it, the same cached entry and the same
    offset. *)
Theorem readdir_paging (path : string) (theOffset : Z) (fileInfo : fuse_file_info)
    (w : World) (p : positive) (c : logfuse_dir_info) (d : DIR) (n m : nat) :
  logfuse_get_dir fileInfo = Some p ->
  w_heap w !! p = Some c ->
  dir c = Some d ->
  exists b1 w1 c1 b2 w2 c2 b w' c',
    logfuse_readdir path (empty_buf n) fill_dir theOffset fileInfo w
    = Returns (0, b1, w1) /\
    w_heap w1 !! p = Some c1 /\
    logfuse_readdir path (empty_buf m) fill_dir (offset c1) fileInfo w1
    = Returns (0, b2, w2) /\
    w_heap w2 !! p = Some c2 /\
    logfuse_readdir path (empty_buf (n + m)) fill_dir theOffset fileInfo w
    = Returns (0, b, w') /\
    w_heap w' !! p = Some c' /\
    db_taken b1 ++ db_taken b2 = db_taken b /\
    pending c2 = pending c' /\
    entry c2 = entry c' /\
    offset c2 = offset c'.
Proof.
  intros Hp Hc Hd.
  destruct (logfuse_readdir_buffer path n theOffset fileInfo w p c d Hp Hc Hd)
    as (b1 & c1 & w1 & E1 & T1 & H1 & (k1 & D1) & P1 & O1 & N1 & F1).
  destruct (logfuse_readdir_buffer path m (offset c1) fileInfo w1 p c1 (at_pos k1 d)
              Hp H1 D1)
    as (b2 & c2 & w2 & E2 & T2 & H2 & _ & P2 & O2 & N2 & F2).
  destruct (logfuse_readdir_buffer path (n + m) theOffset fileInfo w p c d Hp Hc Hd)
    as (b & c' & w' & E & T & H & _ & P & O & N & F).
  cbn zeta in *. rewrite repositioned_same in *.
  exists b1, w1, c1, b2, w2, c2, b, w', c'.
  split; [exact E1 |]. split; [exact H1 |]. split; [exact E2 |]. split; [exact H2 |].
  split; [exact E |]. split; [exact H |].
  split; [rewrite T1, T2, T, O1; apply take_take_drop |].
  split; [now rewrite P2, P, P1, drop_drop |].
  split; [now rewrite N2, N, P1, lookup_drop |].
  rewrite F2, F, O1, F1, <- (take_take_drop _ n m), fmap_app, last_app.
  destruct (last (item_offset <$> take m (drop n _))); reflexivity.
Qed.

Lemma readdir_paging_witness :
  exists b1 w1 c1 b2 w2 b w',
    logfuse_readdir "/d" (empty_buf 1) fill_dir 0 abc_handle abc_opened
    = Returns (0, b1, w1) /\
    w_heap w1 !! 1%positive = Some c1 /\
    logfuse_readdir "/d" (empty_buf 1) fill_dir (offset c1) abc_handle w1
    = Returns (0, b2, w2) /\
    logfuse_readdir "/d" (empty_buf 2) fill_dir 0 abc_handle abc_opened
    = Returns (0, b, w') /\
    db_taken b1 ++ db_taken b2 = db_taken b /\
    fst <$> (item_entry <$> db_taken b) = ["a"%string; "b"%string].
Proof.
  destruct (readdir_paging "/d" 0 abc_handle abc_opened 1%positive
              {| dir := Some abc_dir; entry := None; offset := 0 |} abc_dir 1 1
              eq_refl eq_refl eq_refl)
    as (b1 & w1 & c1 & b2 & w2 & c2 & b & w' & c' & E1 & H1 & E2 & _ & E & _ & T & _).
  exists b1, w1, c1, b2, w2, b, w'.
  split; [exact E1 |]. split; [exact H1 |]. split; [exact E2 |].
  split; [exact E |]. split; [exact T |].
  cbn in E. injection E as <- _. reflexivity.
Defined.

(** X5.  Open, read, release.  A directory that is opened, read (from
    any offset, with any callback) and released: each step returns 0;
    the heap of cursors is afterwards as it was before the open, so the
    cursor is freed; the stream that is closed is the one that was
    opened; and the handle is left dangling: a further read or release
    through it uses a freed pointer. *)
Theorem open_read_release {B : Type} (path : string) (fileInfo : fuse_file_info)
    (w : World) (d : DIR) (r : Z) (buffer : B) (filler : fuse_fill_dir_t B)
    (theOffset : Z) :
  w_opendir w (w_trace w) path = inl d ->
  w_sys w (w_trace w ++ [lib_opendir path]) lib_malloc = Ok r ->
  exists fi w1 b' w2 w3 k calls,
    logfuse_opendir path fileInfo w = (0, fi, w1) /\
    logfuse_readdir path buffer filler theOffset fi w1 = Returns (0, b', w2) /\
    logfuse_releasedir path fi w2 = Returns (0, w3) /\
    w_heap w3 = w_heap w /\
    w_trace w3
    = w_trace w ++ [lib_opendir path; lib_malloc] ++ calls
      ++ [lib_closedir (Some (at_pos k d))] /\
    logfuse_readdir path buffer filler theOffset fi w3 = Undefined /\
    logfuse_releasedir path fi w3 = Undefined.
Proof.
  intros Hopen Hmalloc.
  destruct (logfuse_opendir_stores path fileInfo w d r Hopen Hmalloc)
    as (p & w1 & E1 & Hfresh & Hheap1 & Ht1).
  set (fi := {| flags := flags fileInfo; fh := Zpos p |}) in *.
  assert (Hh1 : w_heap w1 !! p
                = Some {| dir := Some (at_pos 0 d); entry := None; offset := 0 |})
    by (rewrite Hheap1; apply lookup_insert_eq).
  destruct (logfuse_readdir_feed path buffer filler theOffset fi w1 p _ (at_pos 0 d)
              eq_refl Hh1 eq_refl)
    as (c' & w2 & E2 & Hheap2 & (calls & Ht2) & (k & Hk) & _).
  assert (Hh2 : w_heap w2 !! p = Some c') by (rewrite Hheap2; apply lookup_insert_eq).
  assert (Hgone : delete p (w_heap w2) = w_heap w).
  { rewrite Hheap2, Hheap1, delete_insert_eq. now apply delete_insert_id. }
  eexists fi, w1, _, w2, _, k,
    ((if negb (theOffset =? 0) then [lib_seekdir theOffset] else []) ++ calls).
  split; [exact E1 |]. split; [exact E2 |].
  split.
  { unfold logfuse_releasedir. cbn [logfuse_get_dir fi fh]. rewrite Hh2. reflexivity. }
  cbn [free closedir logfuse_log set_heap add_call w_heap w_trace].
  split; [exact Hgone |].
  split.
  { rewrite Hk, Ht2, Ht1. cbn [at_pos d_entries d_tail d_tell d_seek d_pos offset].
    rewrite <- !app_assoc. reflexivity. }
  split.
  - unfold logfuse_readdir. cbn [logfuse_get_dir fi fh].
    cbn [free closedir logfuse_log set_heap add_call w_heap].
    now rewrite Hgone, Hfresh.
  - unfold logfuse_releasedir. cbn [logfuse_get_dir fi fh].
    cbn [free closedir logfuse_log set_heap add_call w_heap].
    now rewrite Hgone, Hfresh.
Qed.

Lemma open_read_release_witness :
  exists fi w1 b' w2 w3,
    logfuse_opendir "/d" fd3 abc_world = (0, fi, w1) /\
    logfuse_readdir "/d" (empty_buf 2) fill_dir 0 fi w1 = Returns (0, b', w2) /\
    logfuse_releasedir "/d" fi w2 = Returns (0, w3) /\
    w_heap w3 = ∅.
Proof.
  destruct (open_read_release "/d" fd3 abc_world abc_dir 0 (empty_buf 2) fill_dir 0
              eq_refl eq_refl)
    as (fi & w1 & b' & w2 & w3 & k & calls & E1 & E2 & E3 & Hh & _).
  exists fi, w1, b', w2, w3. auto.
Defined.

(** ** Setting several attributes at once *)

(** X6.  Both update functions make the calls for the selected fields
    in the order mode, ownership, size, access time, modification
    time, creation time, change time, backup time, flags: the calls
    they make are the first [n] of that list, for some [n], and they
    make no other call. *)
Theorem setattr_fields_in_order (path : string) (a : setattr_x)
    (fileInfo : fuse_file_info) (sysErr0 : Z) (w : World) :
  (exists n,
      w_trace (logfuse_setattr_x path a sysErr0 w).2
      = w_trace w ++ take n (setattr_calls path a)) /\
  (exists n,
      w_trace (logfuse_fsetattr_x path a fileInfo sysErr0 w).2
      = w_trace w ++ take n (fsetattr_calls (to_int (fh fileInfo)) a)).
Proof.
  split.
  - exact (setattr_x_in_order path a sysErr0 w).
  - exact (fsetattr_x_in_order path a fileInfo sysErr0 w).
Qed.






(** A request for size, access time and flags in which the size and
    the flags fail and the access time can be set: the update ends at
    the access time and reports its success. *)
Example setattr_reports_last_call_example :
  logfuse_setattr_x "/f" (request (8 + 16 - 2 ^ 31)) 0
    (new_world size_and_flags_fail no_dirs)
  = (0, {| w_sys := size_and_flags_fail; w_opendir := no_dirs; w_errno := 27;
           w_trace := [sys_truncate "/f" 100;
                       sys_setattrlist "/f" ATTR_CMN_ACCTIME zero_time];
           w_log := [("logfuse_setattr_x(%s) err=%d"%string, [LStr "/f"; LInt 0])];
           w_heap := ∅ |}).
Proof. reflexivity. Qed.

(** X8.  A failing first call ends the update.  When the mode is
    selected and its call fails with error [e], or when the mode is not
    selected, the ownership is, and its call fails with error [e]: the
    result is [-e] and no other call is made, whatever else the request
    selects.  The same holds of both update functions. *)
Theorem setattr_first_failure (path : string) (a : setattr_x)
    (fileInfo : fuse_file_info) (sysErr0 : Z) (w : World) (e : positive) :
  let owner := if SETATTR_WANTS_UID a then uid a else id_unchanged in
  let group := if SETATTR_WANTS_GID a then gid a else id_unchanged in
  let fd := to_int (fh fileInfo) in
  (SETATTR_WANTS_MODE a = true ->
   w_sys w (w_trace w) (sys_lchmod path (mode a)) = Fail e ->
   logfuse_setattr_x path a sysErr0 w
   = setattr_done path (-1)
       (set_errno (Zpos e) (add_call (sys_lchmod path (mode a)) w))) /\
  (SETATTR_WANTS_MODE a = true ->
   w_sys w (w_trace w) (sys_fchmod fd (mode a)) = Fail e ->
   logfuse_fsetattr_x path a fileInfo sysErr0 w
   = setattr_done path (-1)
       (set_errno (Zpos e) (add_call (sys_fchmod fd (mode a)) w))) /\
  (SETATTR_WANTS_MODE a = false ->
   SETATTR_WANTS_UID a || SETATTR_WANTS_GID a = true ->
   w_sys w (w_trace w) (sys_lchown path owner group) = Fail e ->
   logfuse_setattr_x path a sysErr0 w
   = setattr_done path (-1)
       (set_errno (Zpos e) (add_call (sys_lchown path owner group) w))) /\
  (SETATTR_WANTS_MODE a = false ->
   SETATTR_WANTS_UID a || SETATTR_WANTS_GID a = true ->
   w_sys w (w_trace w) (sys_fchown fd owner group) = Fail e ->
   logfuse_fsetattr_x path a fileInfo sysErr0 w
   = setattr_done path (-1)
       (set_errno (Zpos e) (add_call (sys_fchown fd owner group) w))).
Proof.
  intros owner group fd. subst owner group fd. repeat split.
  - intros Hm Hc. unfold logfuse_setattr_x, attr_step. cbv zeta.
    now rewrite Hm, (native_Fail _ _ _ Hc).
  - intros Hm Hc. unfold logfuse_fsetattr_x, attr_step. cbv zeta.
    now rewrite Hm, (native_Fail _ _ _ Hc).
  - intros Hm Ho Hc. unfold logfuse_setattr_x, attr_step. cbv zeta.
    rewrite Hm, Ho. now rewrite (native_Fail _ _ _ Hc).
  - intros Hm Ho Hc. unfold logfuse_fsetattr_x, attr_step. cbv zeta.
    rewrite Hm, Ho. now rewrite (native_Fail _ _ _ Hc).
Qed.

Lemma setattr_first_failure_witness :
  logfuse_setattr_x "/f" (request 9) 0 (new_world chmod_denied no_dirs)
  = (-1, {| w_sys := chmod_denied; w_opendir := no_dirs; w_errno := 1;
            w_trace := [sys_lchmod "/f" 420];
            w_log := [("logfuse_setattr_x(%s) err=%d"%string, [LStr "/f"; LInt (-1)])];
            w_heap := ∅ |}) /\
  fst (logfuse_fsetattr_x "/f" (request 9) fd3 0 (new_world chmod_denied no_dirs)) = -1 /\
  fst (logfuse_setattr_x "/f" (request 10) 0 (new_world chown_denied no_dirs)) = -1 /\
  fst (logfuse_fsetattr_x "/f" (request 10) fd3 0 (new_world chown_denied no_dirs)) = -1.
Proof.
  destruct (setattr_first_failure "/f" (request 9) fd3 0
              (new_world chmod_denied no_dirs) 1%positive) as (H1 & H2 & _).
  destruct (setattr_first_failure "/f" (request 10) fd3 0
              (new_world chown_denied no_dirs) 1%positive) as (_ & _ & H3 & H4).
  rewrite (H1 eq_refl eq_refl), (H2 eq_refl eq_refl),
    (H3 eq_refl eq_refl eq_refl), (H4 eq_refl eq_refl eq_refl).
  repeat split.
Defined.

(** ** Error translation with a narrowed result *)

(** X9.  [logfuse_listxattr] holds the outcome in an [ssize_t] and
    returns an [int]: a failure with error [e] gives [-e], a length
    below 2^31 is returned as it is, and any other result is returned
    cut down to 32 bits. *)
Theorem listxattr_result (path list : string) (size : Z) (w : World) :
  (forall e, Zpos e < 2 ^ 31 ->
     w_sys w (w_trace w) (sys_listxattr path size) = Fail e ->
     fst (logfuse_listxattr path list size w) = - Zpos e) /\
  (forall r, 0 <= r < 2 ^ 31 ->
     w_sys w (w_trace w) (sys_listxattr path size) = Ok r ->
     fst (logfuse_listxattr path list size w) = r) /\
  (forall r, r <> -1 ->
     w_sys w (w_trace w) (sys_listxattr path size) = Ok r ->
     fst (logfuse_listxattr path list size w) = to_int r).
Proof.
  repeat split.
  - intros e He H. unfold logfuse_listxattr. rewrite (native_Fail _ _ _ H).
    cbn. apply to_int_small. lia.
  - intros r Hr H. now apply logfuse_listxattr_result.
  - intros r Hr H. unfold logfuse_listxattr. rewrite (native_Ok _ _ _ H). cbn.
    unfold RETURN_FUSE_ERRNO. destruct (Z.eqb_spec r (-1)); [contradiction | reflexivity].
Qed.

Lemma listxattr_result_witness :
  fst (logfuse_listxattr "/a" "" 64 (new_world xattrs_of_a no_dirs)) = 17 /\
  fst (logfuse_listxattr "/b" "" 64 (new_world xattrs_of_a no_dirs)) = -2.
Proof.
  destruct (listxattr_result "/a" "" 64 (new_world xattrs_of_a no_dirs)) as (_ & Hok & _).
  destruct (listxattr_result "/b" "" 64 (new_world xattrs_of_a no_dirs)) as (Hfail & _).
  split.
  - apply (Hok 17); [lia | reflexivity].
  - apply (Hfail 2%positive); [reflexivity | reflexivity].
Defined.

(** ** Files: flush *)

Lemma xnative_Ok (c : xcall) (h : Host) (r : Z) :
  h_sys h (h_trace h) c = Ok r -> xnative c h = (r, add_xcall c h).
Proof. intros H. unfold xnative. now rewrite H. Qed.

Lemma xnative_Fail (c : xcall) (h : Host) (e : positive) :
  h_sys h (h_trace h) c = Fail e ->
  xnative c h = (-1, with_world (set_errno (Zpos e) (h_world h)) (add_xcall c h)).
Proof. intros H. unfold xnative. now rewrite H. Qed.

Lemma xnative_trace (c : xcall) (h : Host) :
  h_trace (xnative c h).2 = h_trace h ++ [c] /\ h_sys (xnative c h).2 = h_sys h.
Proof. unfold xnative. now destruct (h_sys h (h_trace h) c). Qed.

(** X10.  [logfuse_flush] makes two calls, [dup] of the file's
    descriptor and [close] of what [dup] returned, and reports the
    [close] alone.  When [dup] hands out a descriptor other than the
    file's own, the file's descriptor is not closed.  When [dup] fails,
    its error is not what is reported: [close] is called on -1 and the
    result is the error of that call. *)
Theorem flush_reports_the_close (path : string) (fileInfo : fuse_file_info)
    (h : Host) (first : sysret) :
  h_sys h (h_trace h) (sys_dup (to_int (fh fileInfo))) = first ->
  let copy := match first with Ok c => c | Fail _ => -1 end in
  let r := logfuse_flush path fileInfo h in
  h_trace r.2 = h_trace h ++ [sys_dup (to_int (fh fileInfo)); sys_close copy] /\
  (copy <> to_int (fh fileInfo) ->
   ~ In (sys_close (to_int (fh fileInfo))) (drop (length (h_trace h)) (h_trace r.2))) /\
  match h_sys h (h_trace h ++ [sys_dup (to_int (fh fileInfo))]) (sys_close copy) with
  | Fail e => r.1 = - Zpos e /\ xerrno r.2 = Zpos e
  | Ok s =>
    match first with
    | Ok _ => r.1 = RETURN_FUSE_ERRNO s (xerrno h) /\ xerrno r.2 = xerrno h
    | Fail e => r.1 = RETURN_FUSE_ERRNO s (Zpos e) /\ xerrno r.2 = Zpos e
    end
  end.
Proof.
  intros Hfirst copy r.
  assert (Htrace : h_trace r.2
                   = h_trace h ++ [sys_dup (to_int (fh fileInfo)); sys_close copy]).
  { subst r copy. unfold logfuse_flush, xnative. rewrite Hfirst.
    destruct first as [c | e]; cbn;
      match goal with |- context [h_sys h ?t ?c] => destruct (h_sys h t c) end;
      cbn; now rewrite <- app_assoc. }
  split; [exact Htrace | split].
  - intros Hne Hin. rewrite Htrace, drop_app_length in Hin.
    destruct Hin as [Hin | [Hin | []]]; [discriminate | congruence].
  - subst r copy. unfold logfuse_flush, xnative. rewrite Hfirst.
    destruct first as [c | e]; cbn;
      match goal with |- context [h_sys h ?t ?c] => destruct (h_sys h t c) end;
      cbn; auto.
Qed.

Lemma flush_reports_the_close_witness :
  (logfuse_flush "/f" fd3 (new_host dup_gives_7 no_links)).1 = 0 /\
  (logfuse_flush "/f" fd3 (new_host no_descriptor_left no_links)).1 = -9.
Proof.
  split.
  - pose proof (flush_reports_the_close "/f" fd3 (new_host dup_gives_7 no_links)
                  (Ok 7) eq_refl) as (_ & _ & H).
    cbn in H. exact (proj1 H).
  - pose proof (flush_reports_the_close "/f" fd3 (new_host no_descriptor_left no_links)
                  (Fail 24) eq_refl) as (_ & _ & H).
    cbn in H. exact (proj1 H).
Defined.

(** ** Symbolic links *)

Lemma c_string_app (l r : list Z) :
  Forall (fun b => b <> 0) l -> c_string (l ++ 0 :: r) = l.
Proof.
  induction 1 as [| b l Hb _ IH]; [reflexivity |].
  cbn. apply Z.eqb_neq in Hb. now rewrite Hb, IH.
Qed.

Lemma to_size_t_small (x : Z) : 0 <= x < 2 ^ 64 -> to_size_t x = x.
Proof. intros H. unfold to_size_t. now rewrite Z.mod_small. Qed.

(** X11.  [logfuse_readlink] on a buffer of [size] bytes, [size]
    between 1 and 2^31, and a link whose text has no zero byte.  When
    the link is read the buffer holds, as a C string, the text cut to
    [size - 1] bytes, and the result is the number of those bytes (not
    0).  When the call fails with error [e] the buffer holds the empty
    string and the result is [-e].  In both cases the buffer keeps its
    length: nothing is stored outside it. *)
Theorem readlink_terminated (path : string) (buffer : list Z) (size : Z) (h : Host) :
  1 <= size <= 2 ^ 31 ->
  length buffer = Z.to_nat size ->
  Forall (fun b => b <> 0) (h_link h path) ->
  exists buffer' h',
    length buffer' = length buffer /\
    match h_sys h (h_trace h) (sys_readlink path (size - 1)) with
    | Ok _ =>
      logfuse_readlink path buffer size h
      = Returns (Z.min (Z.of_nat (length (h_link h path))) (size - 1), buffer', h') /\
      c_string buffer' = take (Z.to_nat (size - 1)) (h_link h path)
    | Fail e =>
      logfuse_readlink path buffer size h = Returns (- Zpos e, buffer', h') /\
      c_string buffer' = []
    end.
Proof.
  intros Hsize Hlen Htext.
  unfold logfuse_readlink, readlink.
  rewrite to_size_t_small by lia.
  destruct (h_sys h (h_trace h) (sys_readlink path (size - 1))) as [r | e].
  - set (n := Z.min (Z.of_nat (length (h_link h path))) (size - 1)).
    assert (Hn : 0 <= n <= size - 1) by lia.
    assert (Hk : Z.to_nat n = Nat.min (Z.to_nat (size - 1)) (length (h_link h path)))
      by lia.
    replace (Z.of_nat (length buffer) <? n) with false
      by (symmetry; apply Z.ltb_ge; lia).
    rewrite (to_int_small n) by lia.
    replace (n =? -1) with false by (symmetry; apply Z.eqb_neq; lia).
    assert (Hlen' : length (take (Z.to_nat n) (h_link h path)
                            ++ drop (Z.to_nat n) buffer) = length buffer).
    { rewrite length_app, length_take, length_drop. lia. }
    rewrite Hlen'.
    replace ((0 <=? n) && (n <? Z.of_nat (length buffer))) with true
      by (symmetry; apply andb_true_iff; split; [apply Z.leb_le | apply Z.ltb_lt]; lia).
    eexists _, _. split; [| split; [unfold RETURN_FUSE_ERRNO; 
      replace (n =? -1) with false by (symmetry; apply Z.eqb_neq; lia); reflexivity |]].
    + now rewrite length_insert.
    + assert (Hd : exists b rest, drop (Z.to_nat n) buffer = b :: rest).
      { destruct (drop (Z.to_nat n) buffer) as [| b rest] eqn:E; [| eauto].
        apply (f_equal length) in E. rewrite length_drop in E. cbn in E. lia. }
      destruct Hd as (b & rest & Hd). rewrite Hd.
      replace (Z.to_nat n) with (length (take (Z.to_nat n) (h_link h path)) + 0)%nat
        at 1 by (rewrite length_take; lia).
      rewrite insert_app_r. change (<[0%nat:=0]> (b :: rest)) with (0 :: rest).
      rewrite c_string_app by now apply Forall_take.
      rewrite Hk. apply take_min_length.
  - replace (to_int (-1)) with (-1) by reflexivity.
    cbn [Z.eqb Pos.eqb].
    replace ((0 <=? 0) && (0 <? Z.of_nat (length buffer))) with true
      by (symmetry; apply andb_true_iff; split; [apply Z.leb_le | apply Z.ltb_lt]; lia).
    eexists _, _. split; [| split; [reflexivity |]].
    + now rewrite length_insert.
    + destruct buffer as [| b buffer]; [cbn in Hlen; lia | reflexivity].
Qed.

Lemma readlink_terminated_witness :
  (exists buffer' h',
      logfuse_readlink "/l" [1; 1; 1; 1] 4 (new_host host_ok link_abcde)
      = Returns (3, buffer', h') /\
      c_string buffer' = [97; 98; 99]) /\
  (exists buffer' h',
      logfuse_readlink "/l" [1; 1; 1; 1] 4 (new_host (host_fails 2) link_abcde)
      = Returns (-2, buffer', h') /\
      c_string buffer' = []).
Proof.
  split.
  - destruct (readlink_terminated "/l" [1; 1; 1; 1] 4 (new_host host_ok link_abcde))
      as (buffer' & h' & _ & E & Hs).
    + lia.
    + reflexivity.
    + repeat constructor; discriminate.
    + exists buffer', h'. split; [exact E | exact Hs].
  - destruct (readlink_terminated "/l" [1; 1; 1; 1] 4
                (new_host (host_fails 2) link_abcde))
      as (buffer' & h' & _ & E & Hs).
    + lia.
    + reflexivity.
    + repeat constructor; discriminate.
    + exists buffer', h'. split; [exact E | exact Hs].
Defined.

(** ** Space for a file *)

(** X12.  [logfuse_fallocate].  A mode without the [PREALLOCATE] bit is
    refused with [-ENOTSUP], with no call and no log line.  Any other
    mode makes one [fcntl] call on the file's descriptor, whose request
    carries the offset and the length as given, the flags for
    [ALLOCATECONTIG] and [ALLOCATEALL], and one position mode: from the
    volume when [ALLOCATEFROMVOL] is set, whether or not
    [ALLOCATEFROMPEOF] is set too, else from the end of file when
    [ALLOCATEFROMPEOF] is set, else 0; the result is [-e] when the call
    fails with error [e]. *)
Theorem fallocate_request (k : fallocate_consts) (path : string)
    (mode offset length : Z) (fileInfo : fuse_file_info) (h : Host) :
  let on bit := negb (Z.land mode bit =? 0) in
  let theInfo :=
    {| fst_flags := Z.lor (if on (ALLOCATECONTIG k) then F_ALLOCATECONTIG k else 0)
                          (if on (ALLOCATEALL k) then F_ALLOCATEALL k else 0);
       fst_posmode := if on (ALLOCATEFROMVOL k) then F_VOLPOSMODE k
                      else if on (ALLOCATEFROMPEOF k) then F_PEOFPOSMODE k
                      else 0;
       fst_offset := offset; fst_length := length; fst_bytesalloc := 0 |} in
  let request := sys_fcntl_preallocate (to_int (fh fileInfo)) theInfo in
  let r := logfuse_fallocate k path mode offset length fileInfo h in
  if on (PREALLOCATE k) then
    h_trace r.2 = h_trace h ++ [request] /\
    match h_sys h (h_trace h) request with
    | Ok s => r.1 = RETURN_FUSE_ERRNO s (xerrno h)
    | Fail e => r.1 = - Zpos e
    end
  else r = (- ENOTSUP k, h).
Proof.
  intros on theInfo request r. subst on theInfo request r.
  unfold logfuse_fallocate.
  destruct (Z.land mode (PREALLOCATE k) =? 0); cbn [negb]; [reflexivity |].
  match goal with
  | |- context [xnative (sys_fcntl_preallocate _ ?i) h] =>
    replace i with
      {| fst_flags := Z.lor (if negb (Z.land mode (ALLOCATECONTIG k) =? 0)
                             then F_ALLOCATECONTIG k else 0)
                            (if negb (Z.land mode (ALLOCATEALL k) =? 0)
                             then F_ALLOCATEALL k else 0);
         fst_posmode := if negb (Z.land mode (ALLOCATEFROMVOL k) =? 0)
                        then F_VOLPOSMODE k
                        else if negb (Z.land mode (ALLOCATEFROMPEOF k) =? 0)
                             then F_PEOFPOSMODE k
                             else 0;
         fst_offset := offset; fst_length := length; fst_bytesalloc := 0 |}
  end.
  - unfold xnative.
    match goal with |- context [h_sys h (h_trace h) ?c] =>
      destruct (h_sys h (h_trace h) c) end; cbn; auto.
  - destruct (Z.land mode (ALLOCATECONTIG k) =? 0),
             (Z.land mode (ALLOCATEALL k) =? 0),
             (Z.land mode (ALLOCATEFROMPEOF k) =? 0),
             (Z.land mode (ALLOCATEFROMVOL k) =? 0);
      cbn [negb set_fst_flags set_fst_posmode fst_flags fst_posmode fst_offset
           fst_length fst_bytesalloc];
      rewrite ?Z.lor_0_l, ?Z.lor_0_r; reflexivity.
Qed.

(** Both position bits set, on macOS: the space is taken from the
    volume. *)
Example fallocate_request_example :
  let r := logfuse_fallocate macos_fallocate "/f" (1 + 16 + 32) 0 4096 fd3
             (new_host host_ok no_links) in
  r.1 = 0 /\
  h_trace r.2
  = [sys_fcntl_preallocate 3
       {| fst_flags := 0; fst_posmode := 4; fst_offset := 0; fst_length := 4096;
          fst_bytesalloc := 0 |}] /\
  (logfuse_fallocate macos_fallocate "/f" 2 0 4096 fd3 (new_host host_ok no_links)).1
  = -45.
Proof. repeat split. Qed.

(** ** Attribute queries *)

(** X13.  [logfuse_getattr] and [logfuse_fgetattr] hand back a block
    size of 0 whatever the system reports and also when the query
    fails; the other attributes are those the system reports when the
    query succeeds and those the caller passed in when it fails; one
    call is made, by path and by descriptor. *)
Theorem getattr_block_size (path : string) (statInfo : stat_buf)
    (fileInfo : fuse_file_info) (h : Host) :
  let by_path := logfuse_getattr path statInfo h in
  let by_fd := logfuse_fgetattr path statInfo fileInfo h in
  let fd := to_int (fh fileInfo) in
  (st_blksize by_path.1.2 = 0 /\
   h_trace by_path.2 = h_trace h ++ [sys_lstat path] /\
   match h_sys h (h_trace h) (sys_lstat path) with
   | Ok s => by_path.1.1 = RETURN_FUSE_ERRNO s (xerrno h) /\
             st_fields by_path.1.2 = st_fields (h_stat h (sys_lstat path))
   | Fail e => by_path.1.1 = - Zpos e /\ st_fields by_path.1.2 = st_fields statInfo
   end) /\
  (st_blksize by_fd.1.2 = 0 /\
   h_trace by_fd.2 = h_trace h ++ [sys_fstat fd] /\
   match h_sys h (h_trace h) (sys_fstat fd) with
   | Ok s => by_fd.1.1 = RETURN_FUSE_ERRNO s (xerrno h) /\
             st_fields by_fd.1.2 = st_fields (h_stat h (sys_fstat fd))
   | Fail e => by_fd.1.1 = - Zpos e /\ st_fields by_fd.1.2 = st_fields statInfo
   end).
Proof.
  cbv zeta. unfold logfuse_getattr, logfuse_fgetattr, stat_call. split.
  - destruct (h_sys h (h_trace h) (sys_lstat path)); cbn; auto.
  - destruct (h_sys h (h_trace h) (sys_fstat (to_int (fh fileInfo)))); cbn; auto.
Qed.

(** X14.  [logfuse_getxtimes] never hands back what its local buffer
    held before the call: the result is the same for every content of
    that buffer.  The two times are those the system reports when the
    query returns 0, and both are zero in every other case; a failure
    with error [e] gives [-e]. *)
Theorem getxtimes_outputs (path : string) (attributeData : timespec * timespec)
    (h : Host) :
  let r := logfuse_getxtimes path attributeData h in
  let zero := {| tv_sec := 0; tv_nsec := 0 |} in
  (forall other, logfuse_getxtimes path other h = r) /\
  match h_sys h (h_trace h) (sys_getattrlist_times path) with
  | Ok s =>
    r.1.1.1 = RETURN_FUSE_ERRNO s (xerrno h) /\
    (r.1.1.2, r.1.2)
    = if s =? 0 then ((h_times h path).2, (h_times h path).1) else (zero, zero)
  | Fail e => r.1.1.1 = - Zpos e /\ (r.1.1.2, r.1.2) = (zero, zero)
  end.
Proof.
  cbv zeta. unfold logfuse_getxtimes, getattrlist_times. split.
  - intros other.
    destruct (h_sys h (h_trace h) (sys_getattrlist_times path)) as [s | e].
    + destruct (h_times h path). reflexivity.
    + now destruct other, attributeData.
  - destruct (h_sys h (h_trace h) (sys_getattrlist_times path)) as [s | e].
    + destruct (h_times h path) as [c b]. destruct (s =? 0); cbn; auto.
    + destruct attributeData. cbn. auto.
Qed.

(** ** Mounting: the capabilities asked for *)

Lemma to_uint32_bits (x n : Z) :
  0 <= n -> Z.testbit (to_uint32 x) n = Z.testbit x n && (n <? 32).
Proof.
  intros Hn. unfold to_uint32.
  rewrite <- Z.land_ones by lia.
  now rewrite Z.land_spec, Z.testbit_ones_nonneg by lia.
Qed.

Lemma to_uint32_lor_l (x y : Z) :
  to_uint32 (Z.lor (to_uint32 x) y) = to_uint32 (Z.lor x y).
Proof.
  apply Z.bits_inj'; intros n Hn.
  rewrite !to_uint32_bits, !Z.lor_spec, to_uint32_bits by assumption.
  btauto.
Qed.

Lemma lor_all_bit (l : list Z) (cap n : Z) :
  In cap l -> Z.testbit cap n = true ->
  Z.testbit (List.fold_right Z.lor 0 l) n = true.
Proof.
  intros Hin Hbit. induction l as [| x l IH]; [destruct Hin |].
  cbn [List.fold_right]. rewrite Z.lor_spec. apply orb_true_iff.
  destruct Hin as [-> | Hin]; auto.
Qed.

Lemma want_want_also (cap : Z) (c : fuse_conn_info) :
  want (want_also cap c) = to_uint32 (Z.lor (want c) cap).
Proof. reflexivity. Qed.

Lemma logfuse_init_want (k : fuse_caps) (c : fuse_conn_info) (w : World) :
  want (logfuse_init k c w).1
  = to_uint32 (Z.lor (want c) (List.fold_right Z.lor 0 (all_caps k))).
Proof.
  unfold logfuse_init, all_caps. cbv zeta. cbn [fst List.fold_right].
  rewrite !want_want_also, Z.lor_0_r.
  repeat first [rewrite to_uint32_lor_l | rewrite <- Z.lor_assoc].
  reflexivity.
Qed.

(** X15.  [logfuse_init] leaves in [want], as a 32-bit value, what was
    there together with the ten capabilities it names; it asks for each
    of the ten whether or not the kernel lists it in [capable]; a second
    run changes nothing; the other fields of the connection are left as
    they were; and it makes no call. *)
Theorem init_wants (k : fuse_caps) (c : fuse_conn_info) (w w' : World) :
  let c' := (logfuse_init k c w).1 in
  want c' = to_uint32 (Z.lor (want c) (List.fold_right Z.lor 0 (all_caps k))) /\
  Forall (fun cap => Z.land (want c') cap = to_uint32 cap) (all_caps k) /\
  Z.land (want c') (want c) = to_uint32 (want c) /\
  (logfuse_init k c' w').1 = c' /\
  (proto_major c', proto_minor c', max_write c', max_readahead c', capable c')
  = (proto_major c, proto_minor c, max_write c, max_readahead c, capable c) /\
  (w_trace (logfuse_init k c w).2, w_errno (logfuse_init k c w).2,
   w_heap (logfuse_init k c w).2) = (w_trace w, w_errno w, w_heap w).
Proof.
  intros c'.
  assert (Hwant := logfuse_init_want k c w). fold c' in Hwant.
  split; [exact Hwant |].
  split; [| split; [| split; [| split; reflexivity]]].
  - rewrite Hwant. apply List.Forall_forall. intros cap Hin.
    apply Z.bits_inj'; intros n Hn.
    rewrite Z.land_spec, !to_uint32_bits, Z.lor_spec by assumption.
    destruct (Z.testbit cap n) eqn:Hbit; [| btauto].
    rewrite (lor_all_bit _ _ _ Hin Hbit). btauto.
  - rewrite Hwant. apply Z.bits_inj'; intros n Hn.
    rewrite Z.land_spec, !to_uint32_bits, Z.lor_spec by assumption. btauto.
  - assert (Hsame : want (logfuse_init k c' w').1 = want c').
    { rewrite (logfuse_init_want k c' w'), Hwant, to_uint32_lor_l.
      f_equal. apply Z.bits_inj'; intros n Hn. rewrite !Z.lor_spec. btauto. }
    assert (Hrest : forall x y,
               (proto_major (logfuse_init k x y).1, proto_minor (logfuse_init k x y).1,
                max_write (logfuse_init k x y).1, max_readahead (logfuse_init k x y).1,
                capable (logfuse_init k x y).1)
               = (proto_major x, proto_minor x, max_write x, max_readahead x, capable x))
      by reflexivity.
    specialize (Hrest c' w').
    destruct ((logfuse_init k c' w').1) as [a1 a2 a3 a4 a5 a6], c' as [b1 b2 b3 b4 b5 b6].
    cbn in Hsame, Hrest. congruence.
Qed.

(** ** Bit fields as text, for the log *)

Lemma string_append_assoc (a b c : string) :
  String.append (String.append a b) c = String.append a (String.append b c).
Proof.
  induction a as [| x a IH]; [reflexivity |].
  change (String x (String.append (String.append a b) c)
          = String x (String.append a (String.append b c))).
  now f_equal.
Qed.

Lemma string_append_empty_r (a : string) : String.append a EmptyString = a.
Proof.
  induction a as [| x a IH]; [reflexivity |].
  change (String x (String.append a EmptyString) = String x a).
  now f_equal.
Qed.

Lemma string_append_not_empty (a b : string) :
  b <> EmptyString -> String.append a b <> EmptyString.
Proof. destruct a; [trivial | discriminate]. Qed.

Lemma names_set_cons (flag : Z) (p : Z * string) (table : list (Z * string)) :
  names_set flag (p :: table)
  = if Z.land flag (fst p) =? fst p then snd p :: names_set flag table
    else names_set flag table.
Proof. unfold names_set. cbn. now destruct (Z.land flag (fst p) =? fst p). Qed.

(** The text after the rows of a table, from a text that was begun and
    from the empty text. *)
Lemma text_bits_names (flag : Z) (table : list (Z * string)) :
  Forall (fun p => snd p <> EmptyString) table ->
  (forall theText, theText <> EmptyString ->
     text_bits flag table theText
     = String.append theText (names_behind (names_set flag table))) /\
  text_bits flag table EmptyString
  = match names_set flag table with
    | [] => EmptyString
    | name :: names => String.append name (names_behind names)
    end.
Proof.
  induction 1 as [| p table Hp _ [IH1 IH2]].
  - split; [intros theText _; cbn; now rewrite string_append_empty_r | reflexivity].
  - rewrite names_set_cons. unfold text_bits in *. cbn [List.fold_left].
    unfold TEXT_BIT at 2 4.
    destruct (Z.land flag (fst p) =? fst p).
    + split.
      * intros theText Hne. apply String.eqb_neq in Hne as Hne'. rewrite Hne'.
        rewrite IH1 by (apply string_append_not_empty; now destruct (snd p)).
        cbn [names_behind List.fold_right]. now rewrite !string_append_assoc.
      * cbn [String.eqb]. now apply IH1.
    + split; [exact IH1 | exact IH2].
Qed.

(** X16.  The text of a bit field.  [logfuse_str_access_mode] and
    [logfuse_str_open_flags] give, for the names of their table whose
    bits are all set in the value, in the order of the table: the first
    name as it is, then each further name with the separator behind it
    and none before it; and the value as a decimal number when no name
    applies.  A name whose constant is 0 applies to every value. *)
Theorem str_bits_text (ka : access_consts) (ko : open_consts) (flag : Z) :
  logfuse_str_access_mode ka flag
  = text_of_names flag (names_set flag (access_table ka)) /\
  logfuse_str_open_flags ko flag
  = text_of_names flag (names_set flag (open_table ko)) /\
  Forall (fun p => fst p = 0 -> In (snd p) (names_set flag (access_table ka)))
    (access_table ka) /\
  Forall (fun p => fst p = 0 -> In (snd p) (names_set flag (open_table ko)))
    (open_table ko).
Proof.
  assert (Hend : forall table,
             Forall (fun p => snd p <> EmptyString) table ->
             TEXT_END flag (text_bits flag table EmptyString)
             = text_of_names flag (names_set flag table)).
  { intros table Htable. destruct (text_bits_names flag table Htable) as [_ H].
    rewrite H. unfold TEXT_END, text_of_names.
    destruct (names_set flag table) as [| name names] eqn:E; [reflexivity |].
    assert (Hin : In name (List.map snd table)).
    { unfold names_set in E. 
      assert (Hin : In name (List.map snd (List.filter
                      (fun p => Z.land flag (fst p) =? fst p) table)))
        by (rewrite E; now left).
      apply List.in_map_iff in Hin as (p & <- & Hp).
      apply List.filter_In in Hp as [Hp _]. now apply List.in_map. }
    apply List.in_map_iff in Hin as (p & <- & Hp).
    rewrite List.Forall_forall in Htable. specialize (Htable p Hp).
    destruct (snd p); [contradiction | reflexivity]. }
  assert (Hzero : forall table : list (Z * string),
             Forall (fun p => fst p = 0 -> In (snd p) (names_set flag table)) table).
  { intros table. apply List.Forall_forall. intros p Hp H0.
    unfold names_set. apply List.in_map. apply List.filter_In. split; [exact Hp |].
    rewrite H0, Z.land_0_r. reflexivity. }
  split; [| split; [| split; apply Hzero]].
  - change (logfuse_str_access_mode ka flag)
      with (TEXT_END flag (text_bits flag (access_table ka) EmptyString)).
    apply Hend. unfold access_table. repeat constructor; discriminate.
  - change (logfuse_str_open_flags ko flag)
      with (TEXT_END flag (text_bits flag (open_table ko) EmptyString)).
    apply Hend. unfold open_table. repeat constructor; discriminate.
Qed.

(** With the constants of POSIX, where [F_OK] is 0: a request for
    reading and writing is logged as follows. *)
Example str_access_mode_example :
  logfuse_str_access_mode posix_access 6 = "F_OKR_OK | W_OK | "%string /\
  logfuse_str_access_mode posix_access 0 = "F_OK"%string.
Proof. split; reflexivity. Qed.
